(** * Snapcraft: store upload and lint commands

    A shallow embedding of
    - [snapcraft/commands/core22/upload.py]: the [--component] option parser
      ([ComponentOption.__call__]), [_get_components] and
      [StoreUploadCommand.run];
    - [snapcraft/commands/lint.py]: the dispatch at the head of
      [LintCommand.run].

    Python strings are sequences of characters; a character is an [ascii]
    (a code point below 256).  A Python [dict] with string keys is a
    [gmap string _]; where the iteration order of the keys is observable
    (the keys of the [components] mapping of [snap.yaml]) the key view is a
    list.  Calls into the store client, the file system and the terminal
    are external: their answers come from an environment record and every
    call is appended to a log, which is the state threaded through [run]. *)

From Stdlib Require Import Ascii ZArith DecimalString.
From stdpp Require Import base option list strings gmap fin_maps.

(** ** Python string primitives *)

Module Py.

(** [str.isspace] on one character, for code points below 256. *)
Definition isspace (c : ascii) : bool :=
  let n := nat_of_ascii c in
  ((9 <=? n) && (n <=? 13)) || ((28 <=? n) && (n <=? 32))
  || (n =? 133) || (n =? 160).

(** Truth value of a string: [bool(s)]. *)
Definition truthy (s : string) : bool :=
  match s with EmptyString => false | String _ _ => true end.

(** [s.lstrip()]. *)
Fixpoint lstrip (s : string) : string :=
  match s with
  | EmptyString => EmptyString
  | String c s' => if isspace c then lstrip s' else s
  end.

(** [s.rstrip()]. *)
Fixpoint rstrip (s : string) : string :=
  match s with
  | EmptyString => EmptyString
  | String c s' =>
      match rstrip s' with
      | EmptyString => if isspace c then EmptyString else String c EmptyString
      | r => String c r
      end
  end.

(** [s.strip()]. *)
Definition strip (s : string) : string := rstrip (lstrip s).

(** [s.split(sep)] for a one-character separator: always at least one
    segment, empty segments are kept. *)
Fixpoint split (sep : ascii) (s : string) : list string :=
  match s with
  | EmptyString => [EmptyString]
  | String c s' =>
      if Ascii.eqb c sep then EmptyString :: split sep s'
      else match split sep s' with
           | [] => [String c EmptyString]
           | seg :: segs => String c seg :: segs
           end
  end.

(** [sep.join(l)]. *)
Fixpoint join (sep : string) (l : list string) : string :=
  match l with
  | [] => EmptyString
  | [x] => x
  | x :: l' => x +:+ sep +:+ join sep l'
  end.

(** [repr(n)] of an [int]. *)
Definition repr_int (n : Z) : string := NilZero.string_of_int (Z.to_int n).

(** [c in s]. *)
Fixpoint contains (c : ascii) (s : string) : bool :=
  match s with
  | EmptyString => false
  | String d s' => Ascii.eqb d c || contains c s'
  end.

(** [x in l] for a list (or key view) of strings. *)
Definition elem (x : string) (l : list string) : bool :=
  existsb (String.eqb x) l.

(** The double quote. *)
Definition dquote : ascii := ascii_of_nat 34.

(** The quote [repr] puts around a string: the double quote when the
    string holds a single quote and no double quote, the single quote
    otherwise. *)
Definition repr_quote (s : string) : ascii :=
  if contains "'"%char s && negb (contains dquote s) then dquote else "'"%char.

(** One hexadecimal digit, in lower case. *)
Definition hex_digit (n : nat) : ascii :=
  if n <? 10 then ascii_of_nat (48 + n) else ascii_of_nat (87 + n).

(** The escape [\xhh] of a character. *)
Definition hex_escape (c : ascii) : string :=
  let n := nat_of_ascii c in
  String "\" (String "x" (String (hex_digit (n / 16))
                                  (String (hex_digit (n mod 16)) EmptyString))).

(** [str.isprintable] on one character, for code points below 256: the
    control characters, the no-break space and the soft hyphen are not
    printable. *)
Definition isprintable (c : ascii) : bool :=
  let n := nat_of_ascii c in
  (32 <=? n) && negb (n =? 127) && negb ((128 <=? n) && (n <=? 160))
  && negb (n =? 173).

(** What [repr] writes for one character inside the quotes [quote]. *)
Definition repr_char (quote c : ascii) : string :=
  let n := nat_of_ascii c in
  if Ascii.eqb c quote || Ascii.eqb c "\"%char
  then String "\" (String c EmptyString)
  else if n =? 9 then "\t"
  else if n =? 10 then "\n"
  else if n =? 13 then "\r"
  else if isprintable c then String c EmptyString
  else hex_escape c.

Fixpoint repr_body (quote : ascii) (s : string) : string :=
  match s with
  | EmptyString => EmptyString
  | String c s' => repr_char quote c +:+ repr_body quote s'
  end.

(** [repr(s)] of a string, the [!r] of an f-string. *)
Definition repr (s : string) : string :=
  let quote := repr_quote s in
  String quote (repr_body quote s +:+ String quote EmptyString).

End Py.

(** ** Exceptions *)

Inductive exn : Type :=
| ArgumentParsingError (msg : string)
| ValueError (msg : string)
| RuntimeError (msg : string)
| KeyError (key : string)
| StoreError (detail : string).

(** ** [ComponentOption] *)

Record ComponentOption : Type := mkComponentOption {
  name : string;
  filename : string;
}.

(** [ComponentOption.__call__], run by argparse on every [--component]
    value. *)
Definition ComponentOption_call (value : string) : exn + ComponentOption :=
  let parts := map Py.strip (Py.split "="%char value) in
  let parts := List.filter Py.truthy parts in
  match parts with
  | [n; f] => inr (mkComponentOption n f)
  | _ => inl (ValueError "the component format must be <name>=<filename>")
  end.

(** ** Data read from the snap file and from the command line *)

(** The parts of [meta/snap.yaml] that [run] reads.  [sy_name] is [None]
    when the mapping has no [name] key.  [sy_components] is
    [snap_yaml.get("components")]: [None] when the key is absent or null,
    otherwise the keys of the mapping, in the order a [dict] iterates over
    them. *)
Record SnapYaml : Type := mkSnapYaml {
  sy_name : option string;
  sy_components : option (list string);
}.

(** The part of [snap/manifest.yaml] that [run] reads. *)
Record ManifestYaml : Type := mkManifestYaml {
  snapcraft_started_at : option string;
}.

(** The argparse namespace handed to [StoreUploadCommand.run].
    [snap_file] is the path [run] makes of the argument, as a string:
    [str(pathlib.Path(parsed_args.snap_file))]. *)
Record ParsedArgs : Type := mkParsedArgs {
  snap_file : string;
  channels : option string;
  component : list ComponentOption;
}.

(** Keyword arguments of [client.notify_upload]. *)
Record NotifyArgs : Type := mkNotifyArgs {
  na_snap_name : string;
  na_upload_id : string;
  na_built_at : option string;
  na_channels : option (list string);
  na_snap_file_size : Z;
  na_components : gmap string string;
}.

(** ** External calls *)

(** One entry of the log: a call that left the process, with its outcome
    where it has one. *)
Inductive event : Type :=
| EvDebug (msg : string)
| EvVerifyUpload (snap_name : string) (res : exn + unit)
| EvUploadFile (filepath : string) (res : exn + string)
| EvNotifyUpload (req : NotifyArgs) (res : exn + Z)
| EvMessage (msg : string).

(** The collaborators of [run].  A path is the string [str(path)].  The
    store's answers may depend on everything that happened before, which is
    the log up to the call. *)
Record Env : Type := mkEnv {
  path_exists : string -> bool;
  path_is_file : string -> bool;
  path_parent : string -> string;
  path_join : string -> string -> string;
  st_size : string -> Z;
  StoreClientCLI : exn + unit;
  get_data_from_snap_file : string -> exn + (SnapYaml * option ManifestYaml);
  verify_upload : list event -> string -> exn + unit;
  upload_file : list event -> string -> exn + string;
  notify_upload : list event -> NotifyArgs -> exn + Z;
}.

(** ** The monad of [run]: exceptions over a log *)

Definition M (A : Type) : Type := list event -> (exn + A) * list event.

Definition ret {A : Type} (a : A) : M A := fun l => (inr a, l).

Definition bind {A B : Type} (m : M A) (k : A -> M B) : M B :=
  fun l => match m l with
           | (inl e, l') => (inl e, l')
           | (inr a, l') => k a l'
           end.

Definition raise {A : Type} (e : exn) : M A := fun l => (inl e, l).

Definition lift {A : Type} (r : exn + A) : M A := fun l => (r, l).

Definition emit (ev : event) : M unit := fun l => (inr tt, l ++ [ev]).

(** A call to the store: ask the environment, log the call and its
    outcome, and pass the outcome on. *)
Definition call {A : Type} (answer : list event -> exn + A)
    (entry : exn + A -> event) : M A :=
  fun l => let r := answer l in (r, l ++ [entry r]).

#[global] Instance M_ret : MRet M := @ret.
#[global] Instance M_bind : MBind M := fun A B k m => bind m k.

(** ** [StoreUploadCommand] *)

(** [_get_components]. *)
Definition _get_components (snap_yaml : SnapYaml) : M (option (list string)) :=
  match sy_components snap_yaml with
  | None | Some [] =>
      emit (EvDebug "No components found in snap metadata.");;
      mret None
  | Some keys => mret (Some keys)
  end.

(** [snap_file.parent / component.filename]. *)
Definition component_path (E : Env) (snap_file : string) (c : ComponentOption)
    : string :=
  path_join E (path_parent E snap_file) (filename c).

(** The loop over [expected_components] (lines 136-140). *)
Fixpoint check_expected (expected_components : list string)
    (components : list ComponentOption) : exn + unit :=
  match expected_components with
  | [] => inr tt
  | expected_component :: rest =>
      if negb (Py.elem expected_component (map name components))
      then inl (ValueError
                  ("Component " +:+ Py.repr expected_component +:+ " is missing."))
      else check_expected rest components
  end.

(** The loop over the provided components (lines 142-150). *)
Fixpoint check_provided (E : Env) (snap_file : string)
    (expected_components : list string) (components : list ComponentOption)
    : exn + unit :=
  match components with
  | [] => inr tt
  | provided_component :: rest =>
      if negb (Py.elem (name provided_component) expected_components)
      then inl (ValueError
                  ("Unknown component " +:+ Py.repr (name provided_component) +:+ "."))
      else
        let component_filepath := component_path E snap_file provided_component in
        if negb (path_exists E component_filepath)
        then inl (RuntimeError (component_filepath +:+ " does not exist!"))
        else check_provided E snap_file expected_components rest
  end.

(** The validation block (lines 129-150).  [expected_components] is what
    [_get_components] returned; [None] and an empty key view are false. *)
Definition validate (E : Env) (snap_file : string)
    (expected_components : option (list string))
    (components : list ComponentOption) : exn + unit :=
  match expected_components with
  | None | Some [] => inr tt
  | Some expected =>
      match components with
      | [] =>
          inl (ValueError
                 ("Snap has components but no component files were provided. "
                  +:+ "Use `--component <name>=<filename>`."))
      | _ :: _ =>
          match check_expected expected components with
          | inl e => inl e
          | inr _ => check_provided E snap_file expected components
          end
      end
  end.

Definition call_upload_file (E : Env) (filepath : string) : M string :=
  call (fun l => upload_file E l filepath) (EvUploadFile filepath).

(** The loop that uploads the components (lines 159-164), from the
    mapping built so far. *)
Fixpoint upload_components (E : Env) (snap_file : string)
    (components : list ComponentOption)
    (component_upload_ids : gmap string string) : M (gmap string string) :=
  match components with
  | [] => mret component_upload_ids
  | c :: rest =>
      build_id ← call_upload_file E (component_path E snap_file c);
      upload_components E snap_file rest (<[name c := build_id]> component_upload_ids)
  end.

(** Modelled from the spec: [snapcraft.utils.humanize_list], which is not
    among the sources.  The spec's joining rule: the last two items are
    joined by the conjunction, earlier items are comma-separated. *)
Fixpoint humanize_list (items : list string) (conjunction : string) : string :=
  match items with
  | [] => ""
  | [x] => x
  | [x; y] => x +:+ " " +:+ conjunction +:+ " " +:+ y
  | x :: rest => x +:+ ", " +:+ humanize_list rest conjunction
  end.

(** The summary line (lines 175-177). *)
Definition summary (revision : Z) (snap_name : string)
    (chans : option (list string)) : string :=
  let message :=
    "Revision " +:+ Py.repr_int revision +:+ " created for " +:+ Py.repr snap_name in
  match chans with
  | Some ((_ :: _) as cs) => message +:+ " and released to " +:+ humanize_list cs "and"
  | _ => message
  end.

(** [parsed_args.channels.split(",")] when the option is given and not
    empty (lines 113-115). *)
Definition split_channels (chans : option string) : option (list string) :=
  match chans with
  | Some s => if Py.truthy s then Some (Py.split ","%char s) else None
  | None => None
  end.

(** [StoreUploadCommand.run]. *)
Definition run (E : Env) (parsed_args : ParsedArgs) : M unit :=
  let snap_file := snap_file parsed_args in
  if negb (path_exists E snap_file) || negb (path_is_file E snap_file)
  then raise (ArgumentParsingError (Py.repr snap_file +:+ " is not a valid file"))
  else
    let channels := split_channels (channels parsed_args) in
    lift (StoreClientCLI E);;
    '(snap_yaml, manifest_yaml) ← lift (get_data_from_snap_file E snap_file);
    snap_name ← match sy_name snap_yaml with
                | Some n => mret n
                | None => raise (KeyError "name")
                end;
    let built_at := manifest_yaml ≫= snapcraft_started_at in
    let components := component parsed_args in
    expected_components ← _get_components snap_yaml;
    lift (validate E snap_file expected_components components);;
    call (fun l => verify_upload E l snap_name) (EvVerifyUpload snap_name);;
    upload_id ← call_upload_file E snap_file;
    component_upload_ids ← upload_components E snap_file components ∅;
    revision ← (let req := mkNotifyArgs snap_name upload_id built_at channels
                             (st_size E snap_file) component_upload_ids in
                call (fun l => notify_upload E l req) (EvNotifyUpload req));
    emit (EvMessage (summary revision snap_name channels)).

(** ** [LintCommand] *)

(** The two branches of [LintCommand.run]: [_run_linter] on this machine,
    or [_run_in_provider]. *)
Inductive ExecutionMode : Type :=
| RunLocal
| RunInProvisionedEnvironment.

(** [os.getenv("SNAPCRAFT_BUILD_ENVIRONMENT") == "host"]. *)
Definition forceHostFlag (build_environment : option string) : bool :=
  bool_decide (build_environment = Some "host").

(** The conditional of [LintCommand.run] (lines 89-96);
    [build_environment] is [os.getenv("SNAPCRAFT_BUILD_ENVIRONMENT")]. *)
Definition lint_dispatch (is_managed_mode : bool)
    (build_environment : option string) : ExecutionMode :=
  if negb is_managed_mode && negb (forceHostFlag build_environment)
  then RunInProvisionedEnvironment
  else RunLocal.

(** [LintCommand.run] up to the branch it takes. *)
Definition lint_run (E : Env) (is_managed_mode : bool)
    (build_environment : option string) (snap_file : string)
    : exn + ExecutionMode :=
  if negb (path_exists E snap_file) || negb (path_is_file E snap_file)
  then inl (ArgumentParsingError (Py.repr snap_file +:+ " is not a valid file."))
  else inr (lint_dispatch is_managed_mode build_environment).

(** ** Observations on a log *)

(** The paths handed to [upload_file], in call order. *)
Fixpoint uploads (l : list event) : list string :=
  match l with
  | [] => []
  | EvUploadFile p _ :: l' => p :: uploads l'
  | _ :: l' => uploads l'
  end.

(** The requests handed to [notify_upload], in call order. *)
Fixpoint notified (l : list event) : list NotifyArgs :=
  match l with
  | [] => []
  | EvNotifyUpload req _ :: l' => req :: notified l'
  | _ :: l' => notified l'
  end.

(** [client.verify_upload], the statement after the validation block, was
    reached. *)
Fixpoint verified (l : list event) : bool :=
  match l with
  | [] => false
  | EvVerifyUpload _ _ :: _ => true
  | _ :: l' => verified l'
  end.

(** The component names the snap's metadata declares. *)
Definition declared (snap_yaml : SnapYaml) : list string :=
  default [] (sy_components snap_yaml).

(** [run] gets as far as the validation block: the snap file is a file,
    the client is built and the metadata is read and has a name. *)
Definition reaches_validation (E : Env) (parsed_args : ParsedArgs)
    (snap_yaml : SnapYaml) (manifest_yaml : option ManifestYaml)
    (snap_name : string) : Prop :=
  path_exists E (snap_file parsed_args) = true
  ∧ path_is_file E (snap_file parsed_args) = true
  ∧ StoreClientCLI E = inr tt
  ∧ get_data_from_snap_file E (snap_file parsed_args) = inr (snap_yaml, manifest_yaml)
  ∧ sy_name snap_yaml = Some snap_name.

(** What [_get_components] returns and what it logs. *)
Definition expected_of (snap_yaml : SnapYaml) : option (list string) :=
  match sy_components snap_yaml with
  | None | Some [] => None
  | Some keys => Some keys
  end.

Definition debug_log (snap_yaml : SnapYaml) : list event :=
  match sy_components snap_yaml with
  | None | Some [] => [EvDebug "No components found in snap metadata."]
  | Some _ => []
  end.

(** The statements of [run] that follow the validation block (lines
    152-178), as [run] has them. *)
Definition after_validation (E : Env) (snap_file snap_name : string)
    (built_at : option string) (chans : option (list string))
    (components : list ComponentOption) : M unit :=
  call (fun l => verify_upload E l snap_name) (EvVerifyUpload snap_name);;
  upload_id ← call_upload_file E snap_file;
  component_upload_ids ← upload_components E snap_file components ∅;
  revision ← (let req := mkNotifyArgs snap_name upload_id built_at chans
                           (st_size E snap_file) component_upload_ids in
              call (fun l => notify_upload E l req) (EvNotifyUpload req));
  emit (EvMessage (summary revision snap_name chans)).

(** The log entries of the component uploads that returned the handles
    [hs], and the mapping the loop builds from them. *)
Definition upload_events (E : Env) (snap_file : string)
    (cs : list ComponentOption) (hs : list string) : list event :=
  zip_with (fun c h => EvUploadFile (component_path E snap_file c) (inr h)) cs hs.

Definition record_ids (ids : gmap string string)
    (cs : list ComponentOption) (hs : list string) : gmap string string :=
  foldl (fun m ch => <[name ch.1 := ch.2]> m) ids (zip cs hs).

(** The five ways [after_validation] can end, with the log entries it
    adds: [verify_upload] fails; the upload of the snap fails; the upload
    of the component at index [k] fails; [notify_upload] fails; all is
    done. *)
Inductive after_shape (E : Env) (snap_file snap_name : string)
    (built_at : option string) (chans : option (list string))
    (cs : list ComponentOption) : exn + unit → list event → Prop :=
| shape_verify_failed e :
    after_shape E snap_file snap_name built_at chans cs (inl e)
      [EvVerifyUpload snap_name (inl e)]
| shape_snap_upload_failed e :
    after_shape E snap_file snap_name built_at chans cs (inl e)
      [EvVerifyUpload snap_name (inr tt); EvUploadFile snap_file (inl e)]
| shape_component_upload_failed e upload_id k c hs :
    cs !! k = Some c →
    length hs = k →
    after_shape E snap_file snap_name built_at chans cs (inl e)
      ([EvVerifyUpload snap_name (inr tt); EvUploadFile snap_file (inr upload_id)]
       ++ upload_events E snap_file (take k cs) hs
       ++ [EvUploadFile (component_path E snap_file c) (inl e)])
| shape_notify_failed e upload_id hs :
    length hs = length cs →
    after_shape E snap_file snap_name built_at chans cs (inl e)
      ([EvVerifyUpload snap_name (inr tt); EvUploadFile snap_file (inr upload_id)]
       ++ upload_events E snap_file cs hs
       ++ [EvNotifyUpload
             (mkNotifyArgs snap_name upload_id built_at chans
                (st_size E snap_file) (record_ids ∅ cs hs)) (inl e)])
| shape_done upload_id hs revision :
    length hs = length cs →
    after_shape E snap_file snap_name built_at chans cs (inr tt)
      ([EvVerifyUpload snap_name (inr tt); EvUploadFile snap_file (inr upload_id)]
       ++ upload_events E snap_file cs hs
       ++ [EvNotifyUpload
             (mkNotifyArgs snap_name upload_id built_at chans
                (st_size E snap_file) (record_ids ∅ cs hs)) (inr revision);
           EvMessage (summary revision snap_name chans)]).

(** The log entries a run may hold before the publish request: the debug
    line, [verify_upload] and [upload_file]. *)
Definition before_publish (ev : event) : bool :=
  match ev with
  | EvDebug _ | EvVerifyUpload _ _ | EvUploadFile _ _ => true
  | EvNotifyUpload _ _ | EvMessage _ => false
  end.

(** Every file [run] hands to [upload_file] when nothing fails: the snap,
    then the components in the order given. *)
Definition upload_plan (E : Env) (args : ParsedArgs) : list string :=
  snap_file args :: map (component_path E (snap_file args)) (component args).

(** An entry of the log records what the store answered at that point:
    the outcome it carries is the environment's answer to the call, given
    the log before it. *)
Definition answered (E : Env) (before : list event) (ev : event) : Prop :=
  match ev with
  | EvVerifyUpload n res => res = verify_upload E before n
  | EvUploadFile p res => res = upload_file E before p
  | EvNotifyUpload req res => res = notify_upload E before req
  | EvDebug _ | EvMessage _ => True
  end.

Inductive faithful (E : Env) : list event → Prop :=
| faithful_nil : faithful E []
| faithful_snoc l ev :
    faithful E l → answered E l ev → faithful E (l ++ [ev]).

(** A computation that keeps the log faithful. *)
Definition preserves {A : Type} (E : Env) (m : M A) : Prop :=
  ∀ l r l', faithful E l → m l = (r, l') → faithful E l'.

(** The claim's reading of the option parser: split on ['='] and discard
    the segments that are empty once stripped. *)
Definition kept_segments (v : string) : list string :=
  List.filter (fun seg => Py.truthy (Py.strip seg)) (Py.split "="%char v).

(** ** A small concrete world

    The snap [dir/app.snap] with the component names [declared_names] in
    its metadata; [files] are the paths that exist; the store refuses the
    files in [refused] and hands out the handle [id:<path>] for the
    others. *)
Definition demo_env (files : list string) (declared_names : option (list string))
    (refused : list string) : Env :=
  {| path_exists := fun p => Py.elem p files;
     path_is_file := fun p => Py.elem p files;
     path_parent := fun _ => "dir";
     path_join := fun d f => d +:+ "/" +:+ f;
     st_size := fun _ => 4096%Z;
     StoreClientCLI := inr tt;
     get_data_from_snap_file := fun _ =>
       inr (mkSnapYaml (Some "app") declared_names, None);
     verify_upload := fun _ _ => inr tt;
     upload_file := fun _ p =>
       if Py.elem p refused then inl (StoreError "refused") else inr ("id:" +:+ p);
     notify_upload := fun l _ => inr (Z.of_nat (length l)) |}.

Definition demo_args (chans : option string) (cs : list ComponentOption)
    : ParsedArgs :=
  mkParsedArgs "dir/app.snap" chans cs.

(** A string that does not begin with white space. *)
Definition starts_clean (s : string) : Prop :=
  match s with
  | EmptyString => True
  | String c _ => Py.isspace c = false
  end.

(** A name or a file name as the option parser hands it out: not empty,
    no white space around it and no ['='] in it. *)
Definition well_formed_part (s : string) : Prop :=
  s ≠ "" ∧ Py.strip s = s ∧ Py.contains "="%char s = false.

(** The debug line of [_get_components]. *)
Definition is_debug (ev : event) : bool :=
  match ev with EvDebug _ => true | _ => false end.

(** ** [snapcraft/remote/git.py]

    The wrapper around pygit2.  The calls into pygit2 are external: what
    they return or raise comes from a [Pygit2] record, and each call is
    appended to a log of calls. *)

Module Git.

(** What a call into pygit2 raises: [pygit2.GitError], [KeyError], or
    some other exception. *)
Inductive raised : Type :=
| Pygit2GitError
| PyKeyError
| PyOther (what : string).

(** What the functions of the module raise: [FileNotFoundError], the
    module's own [GitError] with its [details], or an exception of
    pygit2 that no [except] clause caught. *)
Inductive exn : Type :=
| FileNotFoundError (msg : string)
| GitError (details : string)
| Uncaught (r : raised).

(** [pygit2.Signature(name, email)]. *)
Record Signature : Type := mkSignature {
  sig_name : string;
  sig_email : string;
}.

(** The calls into pygit2, with their arguments; [repo] is the
    [pygit2.Repository] object the call goes through. *)
Inductive call : Type :=
| discover_repository (path : string) (across_fs : bool) (ceiling_dirs : string)
| init_repository (path : string)
| Repository (path : string)
| index_add_all (repo : string)
| index_write (repo : string)
| index_write_tree (repo : string)
| create_commit (repo reference_name : string) (author committer : Signature)
    (message tree : string) (parents : list string)
| status (repo : string)
| lookup_reference_dwim (repo refspec : string)
| remotes_create_anonymous (repo url : string)
| remote_push (url : string) (specs : list string).

(** pygit2 and the file system.  [answer_Repository] gives the repository
    object, [answer_index_write_tree] the id of the tree,
    [answer_status] the status dictionary as its items,
    [answer_lookup_reference_dwim] the [name] of the reference found. *)
Record Pygit2 : Type := mkPygit2 {
  is_dir : string → bool;
  absolute : string → string;
  parent : string → string;
  answer_discover_repository :
    list call → string → bool → string → raised + option string;
  answer_init_repository : list call → string → raised + unit;
  answer_Repository : list call → string → raised + string;
  answer_index_add_all : list call → string → raised + unit;
  answer_index_write : list call → string → raised + unit;
  answer_index_write_tree : list call → string → raised + string;
  answer_create_commit :
    list call → string → string → Signature → Signature → string → string →
    list string → raised + string;
  answer_status : list call → string → raised + list (string * Z);
  answer_lookup_reference_dwim : list call → string → string → raised + string;
  answer_remotes_create_anonymous : list call → string → string → raised + unit;
  answer_remote_push : list call → string → list string → raised + unit;
}.

(** Exceptions over the log of calls. *)
Definition G (A : Type) : Type := list call → (exn + A) * list call.

#[global] Instance G_ret : MRet G := fun A a l => (inr a, l).
#[global] Instance G_bind : MBind G := fun A B k m l =>
  match m l with
  | (inl e, l') => (inl e, l')
  | (inr a, l') => k a l'
  end.

Definition raise {A : Type} (e : exn) : G A := fun l => (inl e, l).

(** One call into pygit2: logged, and its exception, if any, is on its
    way up. *)
Definition invoke {A : Type} (c : call) (answer : list call → raised + A)
    : G A :=
  fun l => match answer l with
           | inl r => (inl (Uncaught r), l ++ [c])
           | inr a => (inr a, l ++ [c])
           end.

(** [try: m except pygit2.GitError as error: raise GitError(details) from error]. *)
Definition except_GitError {A : Type} (m : G A) (details : string) : G A :=
  fun l => match m l with
           | (inl (Uncaught Pygit2GitError), l') => (inl (GitError details), l')
           | out => out
           end.

(** The same with [except (pygit2.GitError, KeyError)]. *)
Definition except_GitError_KeyError {A : Type} (m : G A) (details : string)
    : G A :=
  fun l => match m l with
           | (inl (Uncaught Pygit2GitError), l')
           | (inl (Uncaught PyKeyError), l') => (inl (GitError details), l')
           | out => out
           end.

(** [bool(x)] for the optional string [discover_repository] returns. *)
Definition truthy_path (r : option string) : bool :=
  match r with
  | Some s => Py.truthy s
  | None => false
  end.

(** [is_repo]. *)
Definition is_repo (P : Pygit2) (path : string) : G bool :=
  except_GitError
    (let ceiling := parent P (absolute P path) in
     r ← invoke (discover_repository path false ceiling)
          (fun l => answer_discover_repository P l path false ceiling);
     mret (truthy_path r))
    ("Could not check for git repository in " +:+ Py.repr path +:+ ".").

(** A [GitRepo] object: its [path] and its [_repo]. *)
Record GitRepo : Type := mkGitRepo {
  path : string;
  _repo : string;
}.

(** [GitRepo._init_repo]; only [self.path] is read, and it is read before
    [self._repo] is set. *)
Definition _init_repo (P : Pygit2) (self_path : string) : G unit :=
  except_GitError
    (invoke (init_repository self_path)
       (fun l => answer_init_repository P l self_path))
    ("Could not initialize a git repository in " +:+ Py.repr self_path +:+ ".").

(** [GitRepo.__init__]. *)
Definition __init__ (P : Pygit2) (path : string) : G GitRepo :=
  if negb (is_dir P path)
  then raise (FileNotFoundError
                ("Could not initialize a git repository because "
                 +:+ Py.repr path +:+ " does not "
                 +:+ "exist or is not a directory."))
  else
    found ← is_repo P path;
    (if negb found then _init_repo P path else mret tt);;
    repo ← invoke (Repository path) (fun l => answer_Repository P l path);
    mret (mkGitRepo path repo).

(** [GitRepo.add_all]. *)
Definition add_all (P : Pygit2) (self : GitRepo) : G unit :=
  except_GitError
    (invoke (index_add_all (_repo self))
       (fun l => answer_index_add_all P l (_repo self));;
     invoke (index_write (_repo self))
       (fun l => answer_index_write P l (_repo self)))
    ("Could not add changes for the git repository in "
     +:+ Py.repr (path self)).

(** [GitRepo.commit]. *)
Definition commit (P : Pygit2) (self : GitRepo) (message : string) : G unit :=
  tree ← except_GitError
           (invoke (index_write_tree (_repo self))
              (fun l => answer_index_write_tree P l (_repo self)))
           ("Could not create a tree for the git repository in "
            +:+ Py.repr (path self) +:+ ".");
  let author := mkSignature "auto commit" "auto commit" in
  except_GitError
    (invoke (create_commit (_repo self) "HEAD" author author message tree [])
       (fun l => answer_create_commit P l (_repo self) "HEAD" author author
                   message tree []);;
     mret tt)
    ("Could not create a commit for the git repository "
     +:+ "in " +:+ Py.repr (path self) +:+ ".").

(** The default of [message]. *)
Definition commit_default_message : string := "auto commit".

(** [GitRepo.is_clean]: [not bool(status)] of the status dictionary. *)
Definition is_clean (P : Pygit2) (self : GitRepo) : G bool :=
  except_GitError
    (st ← invoke (status (_repo self))
           (fun l => answer_status P l (_repo self));
     mret (match st with [] => true | _ :: _ => false end))
    ("Could not check if the git repository in "
     +:+ Py.repr (path self) +:+ " is clean.").

(** [GitRepo.push_url]. *)
Definition push_url (P : Pygit2) (self : GitRepo) (remote_url refspec : string)
    : G unit :=
  reference ← except_GitError_KeyError
                (invoke (lookup_reference_dwim (_repo self) refspec)
                   (fun l => answer_lookup_reference_dwim P l (_repo self) refspec))
                ("Could not resolve reference " +:+ Py.repr refspec
                 +:+ " for the git repository in "
                 +:+ Py.repr (path self) +:+ ".");
  except_GitError
    (invoke (remotes_create_anonymous (_repo self) remote_url)
       (fun l => answer_remotes_create_anonymous P l (_repo self) remote_url);;
     invoke (remote_push remote_url [reference])
       (fun l => answer_remote_push P l remote_url [reference]))
    ("Could not push " +:+ Py.repr refspec +:+ " to " +:+ Py.repr remote_url
     +:+ " for the git "
     +:+ "repository in " +:+ Py.repr (path self) +:+ ".").

(** The default of [refspec]. *)
Definition push_url_default_refspec : string := "HEAD".

(** The operations on an open repository, for statements about all of
    them. *)
Inductive method : Type :=
| m_add_all
| m_commit (message : string)
| m_is_clean
| m_push_url (remote_url refspec : string).

Definition run_method (P : Pygit2) (self : GitRepo) (m : method)
    : list call → (exn + unit) * list call :=
  match m with
  | m_add_all => add_all P self
  | m_commit message => commit P self message
  | m_is_clean => b ← is_clean P self; mret tt
  | m_push_url remote_url refspec => push_url P self remote_url refspec
  end.

(** A pygit2 that knows the repositories [repos], opens a repository as
    the handle [repo:<path>], resolves [HEAD] only, and fails with
    [pygit2.GitError] on the calls listed in [broken] (by position in
    the log). *)
Definition demo (dirs repos : list string) (broken : list nat) : Pygit2 :=
  let fails {A} (l : list call) (ok : A) : raised + A :=
    if existsb (Nat.eqb (length l)) broken then inl Pygit2GitError else inr ok in
  {| is_dir := fun p => Py.elem p dirs;
     absolute := fun p => "/work/" +:+ p;
     parent := fun p => Py.join "/" (removelast (Py.split "/"%char p));
     answer_discover_repository := fun l p _ _ =>
       fails l (if Py.elem p repos then Some (p +:+ "/.git/") else None);
     answer_init_repository := fun l _ => fails l tt;
     answer_Repository := fun l p => fails l ("repo:" +:+ p);
     answer_index_add_all := fun l _ => fails l tt;
     answer_index_write := fun l _ => fails l tt;
     answer_index_write_tree := fun l _ => fails l "tree-1";
     answer_create_commit := fun l _ _ _ _ _ _ _ => fails l "commit-1";
     answer_status := fun l _ => fails l [];
     answer_lookup_reference_dwim := fun l _ refspec =>
       if String.eqb refspec "HEAD" then fails l "refs/heads/main"
       else inl PyKeyError;
     answer_remotes_create_anonymous := fun l _ _ => fails l tt;
     answer_remote_push := fun l _ _ => fails l tt |}.

End Git.

(** ** [snapcraft/commands/lint.py], the whole command

    [LintCommand.run] with the two branches it dispatches to.  Providers,
    instances, subprocesses, temporary directories, YAML files and the
    linters are external: their answers come from a [World] record and
    every call is appended to a log.  Objects of the collaborators are
    named by strings. *)

Module Lint.

(** What a collaborator raises: [subprocess.SubprocessError],
    [FileNotFoundError], or something else. *)
Inductive raised : Type :=
| SubprocessError
| PyFileNotFoundError
| PyOther (what : string).

Inductive exn : Type :=
| ArgumentParsingError (msg : string)
| SnapcraftError (msg : string)
| LinterError (msg : string) (exit_code : Z)
| TypeError
| KeyError (key : string)
| Uncaught (r : raised).

(** The argparse namespace of the lint command. *)
Record ParsedArgs : Type := mkParsedArgs {
  snap_file : string;
  use_lxd : bool;
  http_proxy : option string;
  https_proxy : option string;
}.

(** The calls that leave the command.  [launched_environment] and
    [TemporaryDirectory] are the entries of the two [with] blocks,
    [launched_environment_exit] and [TemporaryDirectory_cleanup] their
    exits; [check_output] is [subprocess.check_output(cmd, text=True)];
    [open_safe_load] is [open(file)] followed by [yaml.safe_load]. *)
Inductive call : Type :=
| debug (msg : string)
| progress (msg : string)
| get_provider (provider_name : option string)
| ensure_provider_is_available (provider : string)
| get_base_configuration (alias instance_name : string)
    (http_proxy https_proxy : option string)
| launched_environment (provider project_name project_path base_configuration
    build_base instance_name : string)
| push_file (instance source destination : string)
| execute_run (instance : string) (cmd : list string) (check : bool)
| launched_environment_exit (instance : string)
| TemporaryDirectory (prefix : string)
| TemporaryDirectory_cleanup (temp_dir : string)
| check_output (cmd : list string)
| open_safe_load (file : string)
| process_yaml (snap_file : string)
| apply_yaml (yaml_data build_on build_for : string)
| extract_parse_info (yaml_data : string)
| Project_unmarshal (yaml_data : string)
| run_linters (location : string) (lint : option string)
| report (issues : string) (intermediate : bool).

(** The world of the lint command.  [build_base] is
    [providers.SNAPCRAFT_BASE_TO_PROVIDER_BASE["core22"]] and
    [build_base_value] its [value]; [ERRORS] and [FATAL] are the members
    of [LinterStatus]; [cwd] is [Path().absolute()]; [path_str s] is
    [str(Path(s))], the text as pathlib prints it.  A loaded YAML
    document is [None] or a mapping; [answer_Project_unmarshal] gives the
    [lint] attribute of the project. *)
Record World : Type := mkWorld {
  exists_ : string → bool;
  is_file : string → bool;
  is_managed_mode : bool;
  SNAPCRAFT_BUILD_ENVIRONMENT : option string;
  resolve : string → string;
  parent : string → string;
  name_of : string → string;
  join : string → string → string;
  path_str : string → string;
  cwd : string;
  get_host_architecture : string;
  build_base : string;
  build_base_value : string;
  ERRORS : Z;
  FATAL : Z;
  answer_get_provider : list call → option string → raised + string;
  answer_ensure_provider_is_available : list call → string → raised + unit;
  answer_get_base_configuration :
    list call → string → string → option string → option string →
    raised + string;
  answer_launched_environment :
    list call → string → string → string → string → string → string →
    raised + string;
  answer_push_file : list call → string → string → string → raised + unit;
  answer_execute_run : list call → string → list string → bool → raised + unit;
  answer_TemporaryDirectory : list call → string → raised + string;
  answer_check_output : list call → list string → raised + string;
  answer_open_safe_load :
    list call → string → raised + option (gmap string string);
  answer_process_yaml : list call → string → raised + string;
  answer_apply_yaml : list call → string → string → string → raised + string;
  answer_extract_parse_info : list call → string → raised + unit;
  answer_Project_unmarshal : list call → string → raised + option string;
  answer_run_linters : list call → string → option string → raised + string;
  answer_report : list call → string → bool → raised + Z;
}.

(** Exceptions over the log of calls. *)
Definition L (A : Type) : Type := list call → (exn + A) * list call.

#[global] Instance L_ret : MRet L := fun A a l => (inr a, l).
#[global] Instance L_bind : MBind L := fun A B k m l =>
  match m l with
  | (inl e, l') => (inl e, l')
  | (inr a, l') => k a l'
  end.

Definition raise {A : Type} (e : exn) : L A := fun l => (inl e, l).

(** [emit.debug] and [emit.progress]. *)
Definition emit (c : call) : L unit := fun l => (inr tt, l ++ [c]).

Definition invoke {A : Type} (c : call) (answer : list call → raised + A)
    : L A :=
  fun l => match answer l with
           | inl r => (inl (Uncaught r), l ++ [c])
           | inr a => (inr a, l ++ [c])
           end.

(** [with enter as x: body]: the exit is logged however the body ends,
    and what the body raised goes on. *)
Definition with_ {A B : Type} (enter : L A) (exit : A → call)
    (body : A → L B) : L B :=
  fun l => match enter l with
           | (inl e, l') => (inl e, l')
           | (inr a, l') =>
               match body a l' with
               | (r, l'') => (r, l'' ++ [exit a])
               end
           end.

(** [try: m except subprocess.SubprocessError as error: raise e from error]. *)
Definition except_SubprocessError {A : Type} (m : L A) (e : exn) : L A :=
  fun l => match m l with
           | (inl (Uncaught SubprocessError), l') => (inl e, l')
           | out => out
           end.

(** [try: m except FileNotFoundError: handler]. *)
Definition except_FileNotFoundError {A : Type} (m : L A) (handler : L A) : L A :=
  fun l => match m l with
           | (inl (Uncaught PyFileNotFoundError), l') => handler l'
           | out => out
           end.

(** [d["name"]] on what was loaded from a YAML file. *)
Definition getitem_name (d : option (gmap string string)) : L string :=
  match d with
  | None => raise TypeError
  | Some m => match m !! "name" with
              | Some v => mret v
              | None => raise (KeyError "name")
              end
  end.

(** [bool(d)] of what was loaded from a YAML file. *)
Definition truthy_yaml (d : option (gmap string string)) : bool :=
  match d with
  | None => false
  | Some m => negb (bool_decide (m = ∅))
  end.

(** [LintCommand._load_snap_metadata]. *)
Definition _load_snap_metadata (W : World) (snap_file file : string)
    : L (option (gmap string string)) :=
  let snap_file := resolve W snap_file in
  with_ (invoke (TemporaryDirectory (parent W snap_file))
           (fun l => answer_TemporaryDirectory W l (parent W snap_file)))
    TemporaryDirectory_cleanup
    (fun temp_dir =>
       emit (debug ("Unsquashing snap file " +:+ name_of W snap_file));;
       let extract_command :=
         ["unsquashfs"; "-force"; "-dest"; temp_dir; snap_file] in
       except_SubprocessError
         (invoke (check_output extract_command)
            (fun l => answer_check_output W l extract_command))
         (SnapcraftError
            ("Failed to unsquash snap file " +:+ name_of W snap_file));;
       except_FileNotFoundError
         (invoke (open_safe_load (join W temp_dir file))
            (fun l => answer_open_safe_load W l (join W temp_dir file)))
         (emit (progress ("Could not find file " +:+ file
                          +:+ " in snap package " +:+ name_of W snap_file
                          +:+ "."));;
          mret None)).

(** [LintCommand._get_lint_filters]. *)
Definition _get_lint_filters (W : World) (snap_file : string)
    : L (option string) :=
  snapcraft_yaml ← _load_snap_metadata W snap_file "snap/snapcraft.yaml";
  if negb (truthy_yaml snapcraft_yaml)
  then emit (debug "Not applying lint filters.");; mret None
  else
    yaml_data ← invoke (process_yaml snap_file)
                  (fun l => answer_process_yaml W l snap_file);
    let arch := get_host_architecture W in
    yaml_data_for_arch ← invoke (apply_yaml yaml_data arch arch)
                           (fun l => answer_apply_yaml W l yaml_data arch arch);
    invoke (extract_parse_info yaml_data_for_arch)
      (fun l => answer_extract_parse_info W l yaml_data_for_arch);;
    invoke (Project_unmarshal yaml_data_for_arch)
      (fun l => answer_Project_unmarshal W l yaml_data_for_arch).

(** [LintCommand._run_linter]. *)
Definition _run_linter (W : World) (snap_file : string) : L unit :=
  snap_metadata ← _load_snap_metadata W snap_file "meta/snap.yaml";
  let command := ["snap"; "install"; snap_file; "--dangerous"] in
  emit (debug "Installing snap {snap_file}.");;
  except_SubprocessError
    (invoke (check_output command) (fun l => answer_check_output W l command))
    (SnapcraftError "Failed to install snap {snap_data['name']}.");;
  lint_filters ← _get_lint_filters W snap_file;
  snap_name ← getitem_name snap_metadata;
  let location := path_str W ("/snap/" +:+ snap_name +:+ "/current/") in
  issues ← invoke (run_linters location lint_filters)
             (fun l => answer_run_linters W l location lint_filters);
  status ← invoke (report issues true)
             (fun l => answer_report W l issues true);
  if bool_decide (status = ERRORS W) || bool_decide (status = FATAL W)
  then raise (LinterError "Linter errors found" status)
  else mret tt.

(** [LintCommand._run_in_provider]. *)
Definition _run_in_provider (W : World) (parsed_args : ParsedArgs) : L unit :=
  emit (debug "Checking build provider availability");;
  let provider_name := if use_lxd parsed_args then Some "lxd" else None in
  provider ← invoke (get_provider provider_name)
               (fun l => answer_get_provider W l provider_name);
  invoke (ensure_provider_is_available provider)
    (fun l => answer_ensure_provider_is_available W l provider);;
  let instance_name := "snapcraft-linter" in
  let project_path := cwd W in
  let build_base := build_base W in
  base_configuration ←
    invoke (get_base_configuration build_base instance_name
              (http_proxy parsed_args) (https_proxy parsed_args))
      (fun l => answer_get_base_configuration W l build_base instance_name
                  (http_proxy parsed_args) (https_proxy parsed_args));
  emit (progress "Launching instance...");;
  with_ (invoke (launched_environment provider "linter" project_path
                   base_configuration (build_base_value W) instance_name)
           (fun l => answer_launched_environment W l provider "linter"
                       project_path base_configuration (build_base_value W)
                       instance_name))
    launched_environment_exit
    (fun instance =>
       let destination := join W "/root" (name_of W (snap_file parsed_args)) in
       invoke (push_file instance (snap_file parsed_args) destination)
         (fun l => answer_push_file W l instance (snap_file parsed_args)
                     destination);;
       let cmd := ["snapcraft"; "lint"; snap_file parsed_args] in
       invoke (execute_run instance cmd true)
         (fun l => answer_execute_run W l instance cmd true)).

(** [LintCommand.run]; the branch is the one [lint_dispatch] names. *)
Definition run (W : World) (parsed_args : ParsedArgs) : L unit :=
  emit (debug "Running linter.");;
  let snap_file := snap_file parsed_args in
  if negb (exists_ W snap_file) || negb (is_file W snap_file)
  then raise (ArgumentParsingError (Py.repr snap_file +:+ " is not a valid file."))
  else
    match lint_dispatch (is_managed_mode W) (SNAPCRAFT_BUILD_ENVIRONMENT W) with
    | RunInProvisionedEnvironment => _run_in_provider W parsed_args
    | RunLocal =>
        emit (debug "Running snapcraft linter inside a managed instance.");;
        _run_linter W snap_file
    end;;
    emit (debug "linter run successfully").

(** The calls that go to a provider or to an instance, and the calls that
    touch this machine. *)
Definition provider_call (c : call) : bool :=
  match c with
  | get_provider _ | ensure_provider_is_available _
  | get_base_configuration _ _ _ _ | launched_environment _ _ _ _ _ _
  | push_file _ _ _ | execute_run _ _ _ | launched_environment_exit _ => true
  | _ => false
  end.

Definition message_call (c : call) : bool :=
  match c with
  | debug _ | progress _ => true
  | _ => false
  end.

Definition host_call (c : call) : bool :=
  negb (provider_call c) && negb (message_call c).

(** A computation that adds to the log only calls that satisfy [ok]. *)
Definition only {A : Type} (ok : call → bool) (m : L A) : Prop :=
  ∀ l r l', m l = (r, l') → ∃ added, l' = l ++ added ∧ forallb ok added = true.

(** A world where the snap [app.snap] holds [meta/snap.yaml] with the
    name [app] and no [snap/snapcraft.yaml], the linters report the
    status [status], and the calls at the positions [broken] of the log
    fail with [subprocess.SubprocessError]. *)
Definition demo (managed : bool) (build_environment : option string)
    (status : Z) (broken : list nat) : World :=
  let fails {A} (l : list call) (ok : A) : raised + A :=
    if existsb (Nat.eqb (length l)) broken then inl SubprocessError else inr ok in
  {| exists_ := fun p => String.eqb p "app.snap";
     is_file := fun p => String.eqb p "app.snap";
     is_managed_mode := managed;
     SNAPCRAFT_BUILD_ENVIRONMENT := build_environment;
     resolve := fun p => "/work/" +:+ p;
     parent := fun _ => "/work";
     name_of := fun _ => "app.snap";
     join := fun d f => d +:+ "/" +:+ f;
     path_str := fun s =>
       if String.eqb s "/snap/app/current/" then "/snap/app/current" else s;
     cwd := "/work";
     get_host_architecture := "amd64";
     build_base := "BuilddBaseAlias.JAMMY";
     build_base_value := "22.04";
     ERRORS := 2;
     FATAL := 3;
     answer_get_provider := fun l n => fails l (default "multipass" n);
     answer_ensure_provider_is_available := fun l _ => fails l tt;
     answer_get_base_configuration := fun l _ _ _ _ => fails l "base-config";
     answer_launched_environment := fun l _ _ _ _ _ n => fails l n;
     answer_push_file := fun l _ _ _ => fails l tt;
     answer_execute_run := fun l _ _ _ => fails l tt;
     answer_TemporaryDirectory := fun l prefix => fails l (prefix +:+ "tmp0");
     answer_check_output := fun l _ => fails l "";
     answer_open_safe_load := fun l f =>
       if String.eqb f "/worktmp0/meta/snap.yaml"
       then inr (Some {[ "name" := "app" ]})
       else inl PyFileNotFoundError;
     answer_process_yaml := fun l _ => fails l "yaml";
     answer_apply_yaml := fun l y _ _ => fails l y;
     answer_extract_parse_info := fun l _ => fails l tt;
     answer_Project_unmarshal := fun l _ => fails l None;
     answer_run_linters := fun l _ _ => fails l "issues";
     answer_report := fun l _ _ => fails l status |}.

End Lint.

(** * Properties *)

(** ** The option parser *)

Lemma split_nonempty sep s : Py.split sep s ≠ [].
Proof. destruct s as [|c s]; simpl; [done|]. by repeat case_match. Qed.

Lemma join_cons sep x y l :
  Py.join sep (x :: y :: l) = x +:+ sep +:+ Py.join sep (y :: l).
Proof. reflexivity. Qed.

(** Splitting loses nothing: joining the segments with the separator
    gives the input back. *)
Lemma join_split sep s : Py.join (String sep EmptyString) (Py.split sep s) = s.
Proof.
  induction s as [|c s IH]; [done|]. simpl.
  destruct (Py.split sep s) as [|seg segs] eqn:Hs.
  { by apply split_nonempty in Hs. }
  destruct (Ascii.eqb_spec c sep) as [->|Hne].
  - rewrite join_cons, IH. reflexivity.
  - destruct segs as [|seg2 segs].
    + simpl in *. by rewrite IH.
    + rewrite join_cons. rewrite join_cons in IH. by rewrite <- IH.
Qed.

(** No segment holds the separator. *)
Lemma split_no_sep sep s seg :
  seg ∈ Py.split sep s → Py.contains sep seg = false.
Proof.
  revert seg. induction s as [|c s IH]; intros seg; simpl.
  - by intros ->%list_elem_of_singleton.
  - destruct (Ascii.eqb_spec c sep) as [->|Hne].
    + intros [->|?]%elem_of_cons; [done|by apply IH].
    + destruct (Py.split sep s) as [|seg' segs] eqn:Hs.
      * intros ->%list_elem_of_singleton. simpl.
        by apply Ascii.eqb_neq in Hne as ->.
      * intros [->|?]%elem_of_cons.
        -- simpl. apply Ascii.eqb_neq in Hne as ->. simpl.
           apply IH. by left.
        -- apply IH. by right.
Qed.

(** Stripping then dropping the empty strings is dropping the blank
    segments then stripping. *)
Lemma filter_truthy_strip (l : list string) :
  List.filter Py.truthy (map Py.strip l)
  = map Py.strip (List.filter (fun seg => Py.truthy (Py.strip seg)) l).
Proof.
  induction l as [|x l IH]; [done|]. simpl.
  destruct (Py.truthy (Py.strip x)); simpl; by rewrite IH.
Qed.

Lemma ComponentOption_call_kept v :
  ComponentOption_call v =
  match kept_segments v with
  | [s1; s2] => inr (mkComponentOption (Py.strip s1) (Py.strip s2))
  | _ => inl (ValueError "the component format must be <name>=<filename>")
  end.
Proof.
  unfold ComponentOption_call, kept_segments. rewrite filter_truthy_strip.
  by destruct (List.filter _ _) as [|s1 [|s2 [|s3 l]]].
Qed.

(** C10: the parser succeeds exactly when splitting the value on ['='] and
    discarding the segments that are empty after stripping leaves two
    segments, and it returns these two, stripped, as name and filename;
    otherwise it raises [ValueError].  So [name==file] and [=name=file] are
    accepted, and [name=], [=file] and [a=b=c] are rejected. *)
Theorem ComponentOption_call_two_segments (v : string) :
  (∀ c, ComponentOption_call v = inr c ↔
        ∃ s1 s2, kept_segments v = [s1; s2]
                 ∧ c = mkComponentOption (Py.strip s1) (Py.strip s2))
  ∧ (ComponentOption_call v
       = inl (ValueError "the component format must be <name>=<filename>")
     ↔ length (kept_segments v) ≠ 2)
  ∧ ComponentOption_call "name==file" = inr (mkComponentOption "name" "file")
  ∧ ComponentOption_call "=name=file" = inr (mkComponentOption "name" "file")
  ∧ (∀ w, w ∈ ["name="; "=file"; "a=b=c"] →
          ComponentOption_call w
          = inl (ValueError "the component format must be <name>=<filename>")).
Proof.
  rewrite ComponentOption_call_kept.
  split; [|split; [|split; [done|split; [done|]]]].
  - intros c. destruct (kept_segments v) as [|s1 [|s2 [|s3 l]]]; split;
      try (intros [? [? [? ?]]]); try intros ?; simplify_eq; eauto.
  - destruct (kept_segments v) as [|s1 [|s2 [|s3 l]]]; simpl; split;
      intros ?; try done; lia.
  - intros w Hw. repeat (apply elem_of_cons in Hw as [->|Hw]; [done|]).
    by apply elem_of_nil in Hw.
Qed.

(** ** The lint command *)

(** The table of [lint_dispatch], the conditional of
    [LintCommand.run]: [RunLocal] when the process is inside a managed
    environment or [SNAPCRAFT_BUILD_ENVIRONMENT] is [host], and
    [RunInProvisionedEnvironment] exactly when neither holds; the host
    flag takes both values. *)
Theorem lint_dispatch_table (isInsideManagedEnvironment : bool)
    (build_environment : option string) :
  lint_dispatch isInsideManagedEnvironment build_environment
  = (if isInsideManagedEnvironment || forceHostFlag build_environment
     then RunLocal else RunInProvisionedEnvironment)
  ∧ (lint_dispatch isInsideManagedEnvironment build_environment
       = RunInProvisionedEnvironment
     ↔ isInsideManagedEnvironment = false
       ∧ forceHostFlag build_environment = false)
  ∧ (forceHostFlag build_environment = true ↔ build_environment = Some "host")
  ∧ forceHostFlag (Some "host") = true
  ∧ forceHostFlag None = false.
Proof.
  unfold lint_dispatch.
  split; [|split; [|split; [|done]]].
  - by destruct isInsideManagedEnvironment, (forceHostFlag build_environment).
  - destruct isInsideManagedEnvironment, (forceHostFlag build_environment);
      simpl; intuition congruence.
  - unfold forceHostFlag. apply bool_decide_eq_true.
Qed.

Lemma lint_run_valid E managed build_environment f :
  path_exists E f = true → path_is_file E f = true →
  lint_run E managed build_environment f
  = inr (lint_dispatch managed build_environment).
Proof. intros He Hf. unfold lint_run. by rewrite He, Hf. Qed.

(** ** Reading the log *)

Lemma uploads_app l1 l2 : uploads (l1 ++ l2) = uploads l1 ++ uploads l2.
Proof.
  induction l1 as [|ev l1 IH]; [done|].
  destruct ev; simpl; by rewrite ?IH.
Qed.

Lemma notified_app l1 l2 : notified (l1 ++ l2) = notified l1 ++ notified l2.
Proof.
  induction l1 as [|ev l1 IH]; [done|].
  destruct ev; simpl; by rewrite ?IH.
Qed.

Lemma uploads_upload_events E sf cs hs :
  length hs = length cs →
  uploads (upload_events E sf cs hs) = map (component_path E sf) cs.
Proof.
  revert hs. induction cs as [|c cs IH]; intros [|h hs] Hlen;
    simplify_eq/=; [done|].
  f_equal. by apply IH.
Qed.

Lemma notified_upload_events E sf cs hs :
  notified (upload_events E sf cs hs) = [].
Proof.
  revert hs. induction cs as [|c cs IH]; intros [|h hs]; simpl; auto.
Qed.

(** ** The upload loop *)

Lemma upload_components_inr E sf cs ids l ids' l' :
  upload_components E sf cs ids l = (inr ids', l') →
  ∃ hs, length hs = length cs
        ∧ l' = l ++ upload_events E sf cs hs
        ∧ ids' = record_ids ids cs hs.
Proof.
  revert ids l. induction cs as [|c cs IH]; intros ids l; simpl.
  - intros [= <- <-]. exists []. by rewrite app_nil_r.
  - unfold mbind, M_bind, bind, call_upload_file, call. simpl.
    destruct (upload_file E l (component_path E sf c)) as [e|h] eqn:Hup; [done|].
    intros (hs & Hlen & -> & ->)%IH.
    exists (h :: hs). split_and!; simpl; [by f_equal| |done].
    by rewrite <- app_assoc.
Qed.

Lemma upload_components_inl E sf cs ids l e l' :
  upload_components E sf cs ids l = (inl e, l') →
  ∃ k c hs, cs !! k = Some c ∧ length hs = k
            ∧ l' = l ++ upload_events E sf (take k cs) hs
                     ++ [EvUploadFile (component_path E sf c) (inl e)].
Proof.
  revert ids l. induction cs as [|c cs IH]; intros ids l; simpl.
  - done.
  - unfold mbind, M_bind, bind, call_upload_file, call. simpl.
    destruct (upload_file E l (component_path E sf c)) as [e'|h] eqn:Hup.
    + intros [= <- <-]. by exists 0, c, [].
    + intros (k & c' & hs & Hk & Hlen & ->)%IH.
      exists (S k), c', (h :: hs). split_and!; simpl; [done|by f_equal|].
      by rewrite <- app_assoc.
Qed.

(** ** The shape of a run *)

Lemma after_validation_shape E sf n b ch cs l0 r l :
  after_validation E sf n b ch cs l0 = (r, l) →
  ∃ evs, l = l0 ++ evs ∧ after_shape E sf n b ch cs r evs.
Proof.
  unfold after_validation, mbind, M_bind, bind, call_upload_file, call, emit.
  simpl.
  destruct (verify_upload E l0 n) as [e|[]] eqn:Hv.
  { intros [= <- <-]. eexists. split; [done|]. constructor. }
  destruct (upload_file E _ sf) as [e|uid] eqn:Hu.
  { intros [= <- <-]. eexists. split; [by rewrite <- app_assoc|]. constructor. }
  destruct (upload_components E sf cs ∅ _) as [[e|ids] l1] eqn:Hcs.
  { intros [= <- <-].
    apply upload_components_inl in Hcs as (k & c & hs & Hk & Hlen & ->).
    eexists. split; [by rewrite <- !app_assoc|]. by econstructor. }
  apply upload_components_inr in Hcs as (hs & Hlen & -> & ->).
  destruct (notify_upload E _ _) as [e|rev] eqn:Hn.
  { intros [= <- <-]. eexists. split; [by rewrite <- !app_assoc|].
    by constructor. }
  intros [= <- <-]. eexists. split; [by rewrite <- !app_assoc|].
  by constructor.
Qed.

Lemma run_reaches E args sy my n :
  reaches_validation E args sy my n →
  run E args [] =
  match validate E (snap_file args) (expected_of sy) (component args) with
  | inl e => (inl e, debug_log sy)
  | inr _ =>
      after_validation E (snap_file args) n (my ≫= snapcraft_started_at)
        (split_channels (channels args)) (component args) (debug_log sy)
  end.
Proof.
  intros (Hex & Hf & Hc & Hd & Hn). unfold run.
  rewrite Hex, Hf. simpl.
  unfold mbind at 1, M_bind at 1, bind at 1, lift at 1. rewrite Hc.
  unfold mbind at 1, M_bind at 1, bind at 1, lift at 1. rewrite Hd.
  rewrite Hn.
  unfold mbind at 1, M_bind at 1, bind at 1, mret at 1, M_ret at 1, ret at 1.
  unfold mbind at 1, M_bind at 1, bind at 1.
  unfold _get_components, expected_of, debug_log.
  destruct (sy_components sy) as [[|k ks]|]; cbn [emit ret mret M_ret];
    unfold mbind, M_bind, bind, emit, lift, mret, M_ret, ret; cbn [app];
    done.
Qed.

(** Every run either stops before the validation block is passed, with
    nothing but the debug line logged, or goes through
    [after_validation]. *)
Lemma run_cases E args r l :
  run E args [] = (r, l) →
  (∃ e, r = inl e ∧ (l = [] ∨ ∃ msg, l = [EvDebug msg]))
  ∨ (∃ sy my n, reaches_validation E args sy my n
       ∧ validate E (snap_file args) (expected_of sy) (component args) = inr tt
       ∧ ∃ evs, l = debug_log sy ++ evs
           ∧ after_shape E (snap_file args) n (my ≫= snapcraft_started_at)
               (split_channels (channels args)) (component args) r evs).
Proof.
  destruct (path_exists E (snap_file args)) eqn:Hex; cycle 1.
  { unfold run. rewrite Hex. simpl. intros [= <- <-]. left. eauto. }
  destruct (path_is_file E (snap_file args)) eqn:Hf; cycle 1.
  { unfold run. rewrite Hex, Hf. simpl. intros [= <- <-]. left. eauto. }
  destruct (StoreClientCLI E) as [e|[]] eqn:Hc.
  { unfold run. rewrite Hex, Hf. simpl.
    unfold mbind at 1, M_bind at 1, bind at 1, lift at 1. rewrite Hc.
    intros [= <- <-]. left. eauto. }
  destruct (get_data_from_snap_file E (snap_file args)) as [e|[sy my]] eqn:Hd.
  { unfold run. rewrite Hex, Hf. simpl.
    unfold mbind at 1, M_bind at 1, bind at 1, lift at 1. rewrite Hc.
    unfold mbind at 1, M_bind at 1, bind at 1, lift at 1. rewrite Hd.
    intros [= <- <-]. left. eauto. }
  destruct (sy_name sy) as [n|] eqn:Hn; cycle 1.
  { unfold run. rewrite Hex, Hf. simpl.
    unfold mbind at 1, M_bind at 1, bind at 1, lift at 1. rewrite Hc.
    unfold mbind at 1, M_bind at 1, bind at 1, lift at 1. rewrite Hd.
    rewrite Hn. intros [= <- <-]. left. eauto. }
  assert (reaches_validation E args sy my n) as Hreach by done.
  rewrite (run_reaches _ _ _ _ _ Hreach).
  destruct (validate _ _ _ _) as [e|[]] eqn:Hval.
  - intros [= <- <-]. left. exists e. split; [done|].
    unfold debug_log. destruct (sy_components sy) as [[|]|]; eauto.
  - intros (evs & -> & Hshape)%after_validation_shape.
    right. exists sy, my, n. eauto.
Qed.

(** ** The validation block *)

Lemma elem_spec x l : Py.elem x l = true ↔ x ∈ l.
Proof.
  unfold Py.elem. rewrite existsb_exists. split.
  - intros (y & Hy & ->%String.eqb_eq). by apply list_elem_of_In.
  - intros Hx. exists x. split; [by apply list_elem_of_In|apply String.eqb_refl].
Qed.

Lemma elem_false x l : Py.elem x l = false ↔ x ∉ l.
Proof. rewrite <- elem_spec. by destruct (Py.elem x l). Qed.

Lemma check_expected_ok D P :
  check_expected D P = inr tt ↔ ∀ x, x ∈ D → x ∈ map name P.
Proof.
  induction D as [|d D IH]; simpl.
  - split; [|done]. intros _ x Hx. by apply elem_of_nil in Hx.
  - destruct (Py.elem d (map name P)) eqn:Hd; simpl.
    + rewrite IH. apply elem_spec in Hd. split.
      * intros H x [->|Hx]%elem_of_cons; auto.
      * intros H x Hx. apply H. by right.
    + apply elem_false in Hd. split; [done|]. intros H. destruct Hd.
      apply H. by left.
Qed.

Lemma check_provided_ok E sf D P :
  check_provided E sf D P = inr tt ↔
  ∀ c, c ∈ P → name c ∈ D ∧ path_exists E (component_path E sf c) = true.
Proof.
  induction P as [|p P IH]; simpl.
  - split; [|done]. intros _ c Hc. by apply elem_of_nil in Hc.
  - destruct (Py.elem (name p) D) eqn:Hp; simpl.
    + apply elem_spec in Hp.
      destruct (path_exists E (component_path E sf p)) eqn:Hex; simpl.
      * rewrite IH. split.
        -- intros H c [->|Hc]%elem_of_cons; auto.
        -- intros H c Hc. apply H. by right.
      * split; [done|]. intros H.
        destruct (H p) as [_ Hex']; [by left|]. congruence.
    + apply elem_false in Hp. split; [done|]. intros H.
      destruct (H p) as [Hp' _]; [by left|]. done.
Qed.

Lemma expected_of_declared sy :
  declared sy ≠ [] → expected_of sy = Some (declared sy).
Proof.
  unfold declared, expected_of. by destruct (sy_components sy) as [[|k ks]|].
Qed.

Lemma expected_of_none sy : declared sy = [] → expected_of sy = None.
Proof.
  unfold declared, expected_of. by destruct (sy_components sy) as [[|k ks]|].
Qed.

(** With declared components, the block passes exactly when the provided
    names are the declared names and every provided file exists. *)
Lemma validate_declared E sf D P :
  D ≠ [] →
  validate E sf (Some D) P = inr tt ↔
  (∀ x, x ∈ D ↔ x ∈ map name P)
  ∧ ∀ c, c ∈ P → path_exists E (component_path E sf c) = true.
Proof.
  intros HD. unfold validate. destruct D as [|d D]; [done|].
  destruct P as [|p P].
  - split; [done|]. intros [H _].
    destruct (H d) as [Hd _]. specialize (Hd ltac:(by left)).
    by apply elem_of_nil in Hd.
  - destruct (check_expected (d :: D) (p :: P)) as [e|[]] eqn:Hexp.
    + split; [done|]. intros [H _].
      assert (check_expected (d :: D) (p :: P) = inr ()) as Hok.
      { apply check_expected_ok. intros x. apply H. }
      congruence.
    + rewrite check_expected_ok in Hexp. rewrite check_provided_ok. split.
      * intros H. split; [|intros c Hc; by apply H].
        intros x. split; [apply Hexp|].
        intros (c & -> & Hc)%list_elem_of_fmap. by apply H.
      * intros [Hn Hf] c Hc. split; [|by apply Hf].
        apply Hn. apply list_elem_of_fmap. eauto.
Qed.

Lemma verified_app l1 l2 : verified (l1 ++ l2) = verified l1 || verified l2.
Proof.
  induction l1 as [|ev l1 IH]; [done|]. destruct ev; simpl; by rewrite ?IH.
Qed.

Lemma debug_log_silent sy :
  uploads (debug_log sy) = [] ∧ notified (debug_log sy) = []
  ∧ verified (debug_log sy) = false.
Proof. unfold debug_log. by destruct (sy_components sy) as [[|]|]. Qed.

Lemma after_shape_verified E sf n b ch cs r evs :
  after_shape E sf n b ch cs r evs → verified evs = true.
Proof. by destruct 1. Qed.

(** Reaching [verify_upload] is passing the validation block. *)
Lemma run_verified E args sy my n r l :
  reaches_validation E args sy my n →
  run E args [] = (r, l) →
  verified l = true ↔
  validate E (snap_file args) (expected_of sy) (component args) = inr tt.
Proof.
  intros Hreach. rewrite (run_reaches _ _ _ _ _ Hreach).
  destruct (validate _ _ _ _) as [e|[]] eqn:Hval.
  - intros [= <- <-]. by rewrite (proj2 (proj2 (debug_log_silent sy))).
  - intros (evs & -> & Hshape)%after_validation_shape.
    rewrite verified_app, (after_shape_verified _ _ _ _ _ _ _ _ Hshape).
    by rewrite orb_true_r.
Qed.

(** A run that does not reach [verify_upload] has raised, and has called
    neither [upload_file] nor [notify_upload]. *)
Lemma run_not_verified E args r l :
  run E args [] = (r, l) →
  verified l = false →
  (∃ e, r = inl e) ∧ uploads l = [] ∧ notified l = [].
Proof.
  intros [(e & -> & Hl)|(sy & my & n & _ & _ & evs & -> & Hshape)]%run_cases.
  - intros _. split; [eauto|]. by destruct Hl as [->|[msg ->]].
  - rewrite verified_app, (after_shape_verified _ _ _ _ _ _ _ _ Hshape).
    by rewrite orb_true_r.
Qed.

(** ** Reconciliation of declared and provided components *)

(** C1, as the code has it: when the metadata declares components, the
    run passes the validation block exactly when the provided names are
    the declared names and every provided component's file exists; when
    nothing is declared and nothing is provided it passes; a run that
    does not pass has raised with no upload and no publish request. *)
Theorem validation_reconciles E args sy my n r l :
  reaches_validation E args sy my n →
  run E args [] = (r, l) →
  (declared sy ≠ [] →
     verified l = true ↔
     (∀ x, x ∈ declared sy ↔ x ∈ map name (component args))
     ∧ ∀ c, c ∈ component args →
            path_exists E (component_path E (snap_file args) c) = true)
  ∧ (declared sy = [] → component args = [] → verified l = true)
  ∧ (verified l = false →
     (∃ e, r = inl e) ∧ uploads l = [] ∧ notified l = []).
Proof.
  intros Hreach Hrun. split_and!.
  - intros HD. rewrite (run_verified _ _ _ _ _ _ _ Hreach Hrun).
    rewrite (expected_of_declared _ HD). by apply validate_declared.
  - intros HD _. rewrite (run_verified _ _ _ _ _ _ _ Hreach Hrun).
    by rewrite (expected_of_none _ HD).
  - by apply (run_not_verified E args r l Hrun).
Qed.

Lemma validation_reconciles_witness :
  let E := demo_env ["dir/app.snap"; "dir/a.comp"] (Some ["comp-a"]) [] in
  let args := demo_args None [mkComponentOption "comp-a" "a.comp"] in
  let out := run E args [] in
  reaches_validation E args (mkSnapYaml (Some "app") (Some ["comp-a"])) None "app"
  ∧ (verified out.2 = true ↔
     (∀ x, x ∈ ["comp-a"] ↔ x ∈ map name (component args))
     ∧ ∀ c, c ∈ component args →
            path_exists E (component_path E (snap_file args) c) = true).
Proof.
  intros E args out.
  assert (reaches_validation E args
            (mkSnapYaml (Some "app") (Some ["comp-a"])) None "app") as Hreach.
  { unfold reaches_validation. repeat split; reflexivity. }
  split; [exact Hreach|].
  apply (validation_reconciles E args _ None "app" out.1 out.2 Hreach).
  - apply surjective_pairing.
  - discriminate.
Defined.

(** The claim C1 reads the name sets alone: here the provided names are
    the declared names, and the run raises in the validation block
    because the component's file is missing. *)
Lemma validation_names_not_enough :
  let E := demo_env ["dir/app.snap"] (Some ["comp-a"]) [] in
  let args := demo_args None [mkComponentOption "comp-a" "a.comp"] in
  reaches_validation E args (mkSnapYaml (Some "app") (Some ["comp-a"])) None "app"
  ∧ declared (mkSnapYaml (Some "app") (Some ["comp-a"])) = ["comp-a"]
  ∧ map name (component args) = ["comp-a"]
  ∧ run E args [] = (inl (RuntimeError "dir/a.comp does not exist!"), [])
  ∧ verified (run E args []).2 = false.
Proof. unfold reaches_validation. repeat split; reflexivity. Qed.

(** ** The mapping from component names to handles *)

Lemma record_ids_snoc ids cs hs c h :
  length hs = length cs →
  record_ids ids (cs ++ [c]) (hs ++ [h]) = <[name c := h]> (record_ids ids cs hs).
Proof.
  intros Hlen. unfold record_ids.
  rewrite zip_with_app by done. by rewrite foldl_app.
Qed.

(** The handle kept under a name is that of the last component of that
    name; a name no component has keeps what the mapping held before. *)
Lemma record_ids_lookup cs hs ids n h :
  length hs = length cs →
  record_ids ids cs hs !! n = Some h ↔
  (∃ i c, cs !! i = Some c ∧ name c = n ∧ hs !! i = Some h
          ∧ ∀ j c', i < j → cs !! j = Some c' → name c' ≠ n)
  ∨ (ids !! n = Some h ∧ ∀ c, c ∈ cs → name c ≠ n).
Proof.
  revert hs. induction cs as [|c cs IH] using rev_ind; intros hs Hlen.
  - destruct hs; [|done]. unfold record_ids. simpl. split.
    + intros H. right. split; [done|]. intros c Hc. by apply elem_of_nil in Hc.
    + by intros [(i & c & Hi & _)|[H _]].
  - destruct hs as [|h0 hs _] using rev_ind.
    { rewrite length_app in Hlen. simpl in Hlen. lia. }
    rewrite !length_app in Hlen. simpl in Hlen.
    assert (length hs = length cs) as Hlen' by lia.
    rewrite record_ids_snoc by done.
    rewrite lookup_insert. case_decide as Hn.
    + split.
      * intros [= ->]. left. exists (length cs), c. split_and!.
        -- by apply list_lookup_middle.
        -- done.
        -- by apply list_lookup_middle.
        -- intros j c' Hj Hc'%lookup_lt_Some.
           rewrite length_app in Hc'. simpl in Hc'. lia.
      * intros [(i & c1 & Hi & Hn1 & Hh & Hlater)|[_ Hnone]].
        -- destruct (decide (i = length cs)) as [->|Hne].
           ++ rewrite list_lookup_middle in Hh by done. congruence.
           ++ exfalso. apply (Hlater (length cs) c); [|by apply list_lookup_middle|done].
              apply lookup_lt_Some in Hi. rewrite length_app in Hi.
              simpl in Hi. lia.
        -- exfalso. apply (Hnone c); [|done]. apply elem_of_app. right. by left.
    + rewrite IH by done. split.
      * intros [(i & c1 & Hi & Hn1 & Hh & Hlater)|[Hids Hnone]].
        -- left. exists i, c1. split_and!;
             [by apply lookup_app_l_Some|done|by apply lookup_app_l_Some|].
           intros j c' Hj Hc'. destruct (decide (j = length cs)) as [->|Hne].
           ++ rewrite list_lookup_middle in Hc' by done. by simplify_eq.
           ++ apply (Hlater j c'); [done|].
              rewrite lookup_app_l in Hc'; [done|].
              apply lookup_lt_Some in Hc'. rewrite length_app in Hc'.
              simpl in Hc'. lia.
        -- right. split; [done|].
           intros c' [Hc'| ->%list_elem_of_singleton]%elem_of_app;
             [by apply Hnone|done].
      * intros [(i & c1 & Hi & Hn1 & Hh & Hlater)|[Hids Hnone]].
        -- left. assert (i < length cs) as Hlt.
           { destruct (decide (i = length cs)) as [->|Hne].
             - rewrite list_lookup_middle in Hi by done. by simplify_eq.
             - apply lookup_lt_Some in Hi. rewrite length_app in Hi.
               simpl in Hi. lia. }
           exists i, c1. split_and!.
           ++ by rewrite lookup_app_l in Hi.
           ++ done.
           ++ rewrite lookup_app_l in Hh; [done|lia].
           ++ intros j c' Hj Hc'. apply (Hlater j c'); [done|].
              by apply lookup_app_l_Some.
        -- right. split; [done|]. intros c' Hc'. apply Hnone.
           apply elem_of_app. by left.
Qed.

(** A run that returns went through every step. *)
Lemma run_success E args l :
  run E args [] = (inr tt, l) →
  ∃ sy my n upload_id hs revision,
    reaches_validation E args sy my n
    ∧ validate E (snap_file args) (expected_of sy) (component args) = inr tt
    ∧ length hs = length (component args)
    ∧ l = debug_log sy
          ++ [EvVerifyUpload n (inr tt);
              EvUploadFile (snap_file args) (inr upload_id)]
          ++ upload_events E (snap_file args) (component args) hs
          ++ [EvNotifyUpload
                (mkNotifyArgs n upload_id (my ≫= snapcraft_started_at)
                   (split_channels (channels args))
                   (st_size E (snap_file args))
                   (record_ids ∅ (component args) hs)) (inr revision);
              EvMessage (summary revision n (split_channels (channels args)))].
Proof.
  intros [(e & [=] & _)|(sy & my & n & Hreach & Hval & evs & -> & Hshape)]%run_cases.
  inversion Hshape; subst. by exists sy, my, n, upload_id, hs, revision.
Qed.

(** ** The log records the store's answers *)

Lemma preserves_ret {A} E (a : A) : preserves E (mret a).
Proof. by intros l r l' Hl [= <- <-]. Qed.

Lemma preserves_raise {A} E e : preserves E (@raise A e).
Proof. by intros l r l' Hl [= <- <-]. Qed.

Lemma preserves_lift {A} E (x : exn + A) : preserves E (lift x).
Proof. by intros l r l' Hl [= <- <-]. Qed.

Lemma preserves_emit E ev : (∀ l, answered E l ev) → preserves E (emit ev).
Proof. intros Hev l r l' Hl [= <- <-]. by constructor. Qed.

Lemma preserves_call {A} E (answer : list event → exn + A) entry :
  (∀ l, answered E l (entry (answer l))) → preserves E (call answer entry).
Proof. intros Hev l r l' Hl [= <- <-]. by constructor. Qed.

Lemma preserves_bind {A B} E (m : M A) (k : A → M B) :
  preserves E m → (∀ a, preserves E (k a)) → preserves E (m ≫= k).
Proof.
  intros Hm Hk l r l' Hl. unfold mbind, M_bind, bind.
  destruct (m l) as [[e|a] l1] eqn:Hml.
  - intros [= <- <-]. by eapply Hm.
  - intros Hka. eapply Hk; [|done]. by eapply Hm.
Qed.

Lemma preserves_upload_components E sf cs ids :
  preserves E (upload_components E sf cs ids).
Proof.
  revert ids. induction cs as [|c cs IH]; intros ids; simpl.
  - apply preserves_ret.
  - apply preserves_bind; [|intros h; apply IH].
    by apply preserves_call.
Qed.

Lemma run_preserves E args : preserves E (run E args).
Proof.
  unfold run. destruct (_ || _); [apply preserves_raise|].
  apply preserves_bind; [apply preserves_lift|intros _].
  apply preserves_bind; [apply preserves_lift|intros [sy my]].
  apply preserves_bind.
  { destruct (sy_name sy); [apply preserves_ret|apply preserves_raise]. }
  intros n. apply preserves_bind.
  { unfold _get_components.
    destruct (sy_components sy) as [[|k ks]|];
      try apply preserves_ret;
      (apply preserves_bind; [by apply preserves_emit|intros _; apply preserves_ret]). }
  intros ec. apply preserves_bind; [apply preserves_lift|intros _].
  apply preserves_bind; [by apply preserves_call|intros _].
  apply preserves_bind; [by apply preserves_call|intros uid].
  apply preserves_bind; [apply preserves_upload_components|intros ids].
  apply preserves_bind; [by apply preserves_call|intros rev].
  by apply preserves_emit.
Qed.

(** In the log of a run every recorded outcome is the store's answer. *)
Lemma run_faithful E args r l : run E args [] = (r, l) → faithful E l.
Proof. apply run_preserves. constructor. Qed.

(** ** Upload order and the publish request *)

(** C2: in a run that returns, [upload_file] is called once for the snap
    and once for each component, [n+1] calls, the snap first and the
    components in the order of the command line. *)
Theorem upload_order E args l :
  run E args [] = (inr tt, l) →
  uploads l = snap_file args
              :: map (component_path E (snap_file args)) (component args)
  ∧ length (uploads l) = S (length (component args)).
Proof.
  intros (sy & my & n & uid & hs & rev & _ & _ & Hlen & ->)%run_success.
  assert (uploads
            (debug_log sy
             ++ [EvVerifyUpload n (inr ()); EvUploadFile (snap_file args) (inr uid)]
             ++ upload_events E (snap_file args) (component args) hs
             ++ [EvNotifyUpload
                   (mkNotifyArgs n uid (my ≫= snapcraft_started_at)
                      (split_channels (channels args))
                      (st_size E (snap_file args))
                      (record_ids ∅ (component args) hs)) (inr rev);
                 EvMessage (summary rev n (split_channels (channels args)))])
          = snap_file args
            :: map (component_path E (snap_file args)) (component args)) as ->.
  { rewrite !uploads_app, (proj1 (debug_log_silent sy)).
    rewrite uploads_upload_events by done. simpl. by rewrite app_nil_r. }
  split; [done|]. simpl. by rewrite length_map.
Qed.

Lemma upload_order_witness :
  let E := demo_env ["dir/app.snap"; "dir/a.comp"; "dir/b.comp"]
             (Some ["comp-a"; "comp-b"]) [] in
  let args := demo_args None [mkComponentOption "comp-b" "b.comp";
                              mkComponentOption "comp-a" "a.comp"] in
  (run E args []).1 = inr tt
  ∧ uploads (run E args []).2 = ["dir/app.snap"; "dir/b.comp"; "dir/a.comp"]
  ∧ length (uploads (run E args []).2) = 3.
Proof.
  intros E args. split; [reflexivity|].
  apply (upload_order E args (run E args []).2). reflexivity.
Defined.

Lemma last_occurrence cs n :
  n ∈ map name cs →
  ∃ i c, cs !! i = Some c ∧ name c = n
         ∧ ∀ j c', i < j → cs !! j = Some c' → name c' ≠ n.
Proof.
  induction cs as [|c cs IH]; simpl.
  - by intros ?%elem_of_nil.
  - intros Hn. destruct (decide (n ∈ map name cs)) as [Hin|Hnin].
    + destruct (IH Hin) as (i & c1 & Hi & Hn1 & Hlater).
      exists (S i), c1. split_and!; [done..|].
      intros [|j] c' Hj Hc'; [lia|]. apply (Hlater j c'); [lia|done].
    + apply elem_of_cons in Hn as [->|?]; [|done].
      exists 0, c. split_and!; [done..|].
      intros [|j] c' Hj Hc'; [lia|]. simpl in Hc'. intros Heq.
      apply Hnin. rewrite <- Heq. apply list_elem_of_fmap. exists c'.
      split; [done|]. by eapply list_elem_of_lookup_2.
Qed.




(** ** Failures of the validation block *)

(** C6, as the code has it: in a run that gets as far as the validation
    block, with components declared and none provided, the run raises
    [ValueError] straight from that block, with nothing logged and so no
    upload started; its message is the sentence
    [Snap has components but no component files were provided.]
    followed by a space and the usage hint
    [Use `--component <name>=<filename>`.] *)
Theorem no_component_files E args sy my n :
  reaches_validation E args sy my n →
  declared sy ≠ [] →
  component args = [] →
  ∃ msg,
    run E args [] = (inl (ValueError msg), [])
    ∧ msg = "Snap has components but no component files were provided. "
            +:+ "Use `--component <name>=<filename>`."
    ∧ String.prefix "Snap has components but no component files were provided."
        msg = true
    ∧ uploads (run E args []).2 = []
    ∧ notified (run E args []).2 = [].
Proof.
  intros Hreach HD HP. eexists.
  rewrite (run_reaches _ _ _ _ _ Hreach), (expected_of_declared _ HD), HP.
  unfold debug_log, declared in *.
  destruct (sy_components sy) as [[|k ks]|]; [done| |done].
  simpl. split_and!; reflexivity.
Qed.

Lemma no_component_files_witness :
  let E := demo_env ["dir/app.snap"] (Some ["comp-a"; "comp-b"]) [] in
  let args := demo_args None [] in
  (run E args []).1
  = inl (ValueError
           ("Snap has components but no component files were provided. "
            +:+ "Use `--component <name>=<filename>`."))
  ∧ uploads (run E args []).2 = [].
Proof.
  intros E args.
  destruct (no_component_files E args
              (mkSnapYaml (Some "app") (Some ["comp-a"; "comp-b"])) None "app")
    as (msg & Hrun & -> & _ & Hup & _).
  - unfold reaches_validation. repeat split; reflexivity.
  - discriminate.
  - reflexivity.
  - split; [by rewrite Hrun|exact Hup].
Defined.

(** The claim C6 gives the sentence as the whole message: for the
    declared names [comp-a] and [comp-b] and no component provided, the
    message raised is not that sentence. *)
Lemma no_component_files_message_longer :
  let E := demo_env ["dir/app.snap"] (Some ["comp-a"; "comp-b"]) [] in
  let args := demo_args None [] in
  ∃ msg,
    run E args [] = (inl (ValueError msg), [])
    ∧ msg ≠ "Snap has components but no component files were provided.".
Proof. intros E args. eexists. split; [reflexivity|discriminate]. Qed.

(** With components declared, a provided component whose file is missing
    stops the run inside the validation block: nothing has been logged,
    so no file went to [upload_file]. *)
Lemma missing_file_stops_declared E args sy my n c :
  reaches_validation E args sy my n →
  declared sy ≠ [] →
  c ∈ component args →
  path_exists E (component_path E (snap_file args) c) = false →
  ∃ e, run E args [] = (inl e, []).
Proof.
  intros Hreach HD Hc Hex.
  rewrite (run_reaches _ _ _ _ _ Hreach), (expected_of_declared _ HD).
  destruct (validate _ _ _ _) as [e|[]] eqn:Hval.
  - exists e. unfold debug_log, declared in *.
    by destruct (sy_components sy) as [[|k ks]|].
  - apply validate_declared in Hval as [_ Hfiles]; [|done].
    specialize (Hfiles c Hc). congruence.
Qed.

(** C4 at a snap that declares no components: the validation block is
    skipped as a whole, the file of the provided component is never
    looked at, and [upload_file] is called for the snap and then for the
    missing file. *)
Theorem missing_file_without_declared_components :
  let E := demo_env ["dir/app.snap"] None ["dir/x.comp"] in
  let args := demo_args None [mkComponentOption "x" "x.comp"] in
  reaches_validation E args (mkSnapYaml (Some "app") None) None "app"
  ∧ path_exists E (component_path E (snap_file args)
                     (mkComponentOption "x" "x.comp")) = false
  ∧ run E args []
    = (inl (StoreError "refused"),
       [EvDebug "No components found in snap metadata.";
        EvVerifyUpload "app" (inr tt);
        EvUploadFile "dir/app.snap" (inr "id:dir/app.snap");
        EvUploadFile "dir/x.comp" (inl (StoreError "refused"))])
  ∧ uploads (run E args []).2 = ["dir/app.snap"; "dir/x.comp"].
Proof. unfold reaches_validation. repeat split; reflexivity. Qed.

(** ** Duplicated component names *)

(** C5, as the code has it: two provided components of one name are not
    an error of their own.  With components declared, such a run passes
    the validation block exactly when the provided names are the declared
    names and every provided file exists.  If it returns, the log holds
    one upload for each provided component, in order, both duplicates
    included, with the handles the store answered; and the one publish
    request holds, under the shared name, the handle of the last provided
    component of that name. *)
Theorem duplicate_names_not_rejected E args sy my n r l i j ci cj :
  reaches_validation E args sy my n →
  declared sy ≠ [] →
  i < j →
  component args !! i = Some ci →
  component args !! j = Some cj →
  name ci = name cj →
  run E args [] = (r, l) →
  (verified l = true ↔
     (∀ x, x ∈ declared sy ↔ x ∈ map name (component args))
     ∧ ∀ c, c ∈ component args →
            path_exists E (component_path E (snap_file args) c) = true)
  ∧ (r = inr tt →
     ∃ req hs before after hi hj k ck h,
       l = before
           ++ upload_events E (snap_file args) (component args) hs
           ++ after
       ∧ uploads before = [snap_file args]
       ∧ uploads after = []
       ∧ length hs = length (component args)
       ∧ faithful E l
       ∧ hs !! i = Some hi
       ∧ hs !! j = Some hj
       ∧ EvUploadFile (component_path E (snap_file args) ci) (inr hi) ∈ l
       ∧ EvUploadFile (component_path E (snap_file args) cj) (inr hj) ∈ l
       ∧ notified l = [req]
       ∧ component args !! k = Some ck
       ∧ name ck = name ci
       ∧ j ≤ k
       ∧ (∀ k' c', k < k' → component args !! k' = Some c' →
                   name c' ≠ name ci)
       ∧ hs !! k = Some h
       ∧ na_components req !! name ci = Some h).
Proof.
  intros Hreach HD Hij Hi Hj Hname Hrun. split.
  - rewrite (run_verified _ _ _ _ _ _ _ Hreach Hrun).
    rewrite (expected_of_declared _ HD). by apply validate_declared.
  - intros ->. pose proof (run_faithful _ _ _ _ Hrun) as Hfaithful.
    pose proof Hrun as
      (sy' & my' & n' & uid & hs & rev & _ & _ & Hlen & Hl)%run_success.
    destruct (lookup_lt_is_Some_2 hs i) as [hi Hhi].
    { rewrite Hlen. by eapply lookup_lt_Some. }
    destruct (lookup_lt_is_Some_2 hs j) as [hj Hhj].
    { rewrite Hlen. by eapply lookup_lt_Some. }
    destruct (last_occurrence (component args) (name ci))
      as (k & ck & Hk & Hnk & Hlater).
    { apply list_elem_of_fmap. exists ci. split; [done|].
      by eapply list_elem_of_lookup_2. }
    destruct (lookup_lt_is_Some_2 hs k) as [h Hh].
    { rewrite Hlen. by eapply lookup_lt_Some. }
    assert (∀ m c hm, component args !! m = Some c → hs !! m = Some hm →
              EvUploadFile (component_path E (snap_file args) c) (inr hm) ∈ l)
      as Hev.
    { intros m c hm Hm Hhm. rewrite Hl.
      apply elem_of_app. right. apply elem_of_app. right.
      apply elem_of_app. left. apply list_elem_of_lookup. exists m.
      unfold upload_events. by rewrite lookup_zip_with, Hm, Hhm. }
    eexists _, hs, (debug_log sy' ++ [_; _]), [_; _], hi, hj, k, ck, h.
    split_and!.
    + rewrite Hl. by rewrite <- !app_assoc.
    + rewrite uploads_app, (proj1 (debug_log_silent sy')). reflexivity.
    + reflexivity.
    + done.
    + done.
    + done.
    + done.
    + by eapply Hev.
    + by eapply Hev.
    + rewrite Hl, !notified_app, (proj1 (proj2 (debug_log_silent sy'))).
      rewrite notified_upload_events. simpl. reflexivity.
    + done.
    + done.
    + destruct (decide (j ≤ k)) as [|Hlt]; [done|]. exfalso.
      apply (Hlater j cj); [lia|done|congruence].
    + done.
    + done.
    + simpl. apply record_ids_lookup; [done|]. left. by exists k, ck.
Qed.

Lemma duplicate_names_not_rejected_witness :
  let E := demo_env ["dir/app.snap"; "dir/a.comp"; "dir/b.comp"]
             (Some ["comp-a"]) [] in
  let args := demo_args None [mkComponentOption "comp-a" "a.comp";
                              mkComponentOption "comp-a" "b.comp"] in
  (verified (run E args []).2 = true ↔
   (∀ x, x ∈ ["comp-a"] ↔ x ∈ map name (component args))
   ∧ ∀ c, c ∈ component args →
          path_exists E (component_path E (snap_file args) c) = true)
  ∧ ∃ req, notified (run E args []).2 = [req]
           ∧ na_components req !! "comp-a" = Some "id:dir/b.comp".
Proof.
  intros E args.
  destruct (duplicate_names_not_rejected E args
              (mkSnapYaml (Some "app") (Some ["comp-a"])) None "app"
              (run E args []).1 (run E args []).2 0 1
              (mkComponentOption "comp-a" "a.comp")
              (mkComponentOption "comp-a" "b.comp")) as [Hval Hret].
  - unfold reaches_validation. repeat split; reflexivity.
  - discriminate.
  - lia.
  - reflexivity.
  - reflexivity.
  - reflexivity.
  - apply surjective_pairing.
  - split; [exact Hval|].
    destruct (Hret eq_refl)
      as (req & hs & before & after & hi & hj & k & ck & h & _ & _ & _ & _
          & _ & _ & _ & _ & _ & Hreq & _).
    exists req. split; [exact Hreq|].
    injection Hreq as <-. vm_compute. reflexivity.
Defined.

(** The claim C5 expects an error here: the name [comp-a] is given twice,
    and the run returns, having uploaded both files and published the
    second handle alone. *)
Lemma duplicate_names_accepted :
  let E := demo_env ["dir/app.snap"; "dir/a.comp"; "dir/b.comp"]
             (Some ["comp-a"]) [] in
  let args := demo_args None [mkComponentOption "comp-a" "a.comp";
                              mkComponentOption "comp-a" "b.comp"] in
  map name (component args) = ["comp-a"; "comp-a"]
  ∧ (run E args []).1 = inr tt
  ∧ uploads (run E args []).2 = ["dir/app.snap"; "dir/a.comp"; "dir/b.comp"]
  ∧ map (fun req => map_to_list (na_components req)) (notified (run E args []).2)
    = [[("comp-a", "id:dir/b.comp")]].
Proof. repeat split; vm_compute; reflexivity. Qed.

(** ** A failing upload *)

Lemma failed_upload_not_in_events E sf cs hs p e :
  EvUploadFile p (inl e) ∉ upload_events E sf cs hs.
Proof.
  revert hs. induction cs as [|c cs IH]; intros [|h hs]; simpl;
    try by intros ?%elem_of_nil.
  intros [[=]|Hin]%elem_of_cons. by apply IH in Hin.
Qed.

Lemma failed_upload_not_in_debug sy p e : EvUploadFile p (inl e) ∉ debug_log sy.
Proof.
  unfold debug_log. destruct (sy_components sy) as [[|]|];
    try (by intros ?%elem_of_nil);
    intros [[=]|?%elem_of_nil]%elem_of_cons; done.
Qed.

Lemma before_publish_debug sy : Forall (fun ev => before_publish ev = true) (debug_log sy).
Proof.
  unfold debug_log. destruct (sy_components sy) as [[|]|]; repeat constructor.
Qed.

Lemma before_publish_events E sf cs hs :
  Forall (fun ev => before_publish ev = true) (upload_events E sf cs hs).
Proof.
  revert hs. induction cs as [|c cs IH]; intros [|h hs]; simpl;
    constructor; auto.
Qed.

(** C7: when a call of [upload_file] fails, the run raises that failure
    and the failed call is the last entry of the log: the files handed to
    [upload_file] are the planned ones up to the failing one and none
    after it, no publish request is sent, and the log holds nothing but
    the debug line, [verify_upload] and these uploads, so nothing is done
    with the handles obtained before. *)
Theorem upload_failure_aborts E args r l p e :
  run E args [] = (r, l) →
  EvUploadFile p (inl e) ∈ l →
  r = inl e
  ∧ (∃ pre, l = pre ++ [EvUploadFile p (inl e)])
  ∧ (∃ k, upload_plan E args !! k = Some p
          ∧ uploads l = take (S k) (upload_plan E args))
  ∧ notified l = []
  ∧ Forall (fun ev => before_publish ev = true) l.
Proof.
  intros [(e' & -> & Hl)|(sy & my & n & _ & _ & evs & -> & Hshape)]%run_cases.
  { destruct Hl as [->|[msg ->]].
    - by intros ?%elem_of_nil.
    - by intros [[=]|?%elem_of_nil]%elem_of_cons. }
  intros [Hin|Hin]%elem_of_app; [by apply failed_upload_not_in_debug in Hin|].
  pose proof (debug_log_silent sy) as (Hdu & Hdn & _).
  pose proof (before_publish_debug sy) as Hdb.
  destruct Hshape as [e'|e'|e' uid k c hs Hk Hlen|e' uid hs Hlen|uid hs rev Hlen].
  - by apply elem_of_cons in Hin as [[=]|?%elem_of_nil].
  - apply elem_of_cons in Hin as [[=]|Hin].
    apply elem_of_cons in Hin as [[= -> ->]|?%elem_of_nil]; [|done].
    split_and!.
    + done.
    + exists (debug_log sy ++ [EvVerifyUpload n (inr ())]).
      by rewrite <- app_assoc.
    + exists 0. split; [done|]. rewrite uploads_app, Hdu. reflexivity.
    + by rewrite notified_app, Hdn.
    + apply Forall_app. split; [done|]. by repeat constructor.
  - apply elem_of_cons in Hin as [[=]|Hin].
    apply elem_of_cons in Hin as [[=]|Hin].
    apply elem_of_app in Hin as [Hin|Hin];
      [by apply failed_upload_not_in_events in Hin|].
    apply elem_of_cons in Hin as [[= -> ->]|?%elem_of_nil]; [|done].
    assert (length hs = length (take k (component args))) as Hlen'.
    { rewrite length_take. apply lookup_lt_Some in Hk. lia. }
    split_and!.
    + done.
    + eexists (debug_log sy ++ [_; _] ++ upload_events _ _ _ _).
      by rewrite <- !app_assoc.
    + exists (S k). split.
      * unfold upload_plan. simpl. by rewrite list_lookup_fmap, Hk.
      * rewrite !uploads_app, Hdu, uploads_upload_events by done.
        unfold upload_plan. simpl. f_equal.
        rewrite (take_S_r _ _ (component_path E (snap_file args) c)).
        -- by rewrite fmap_take.
        -- by rewrite list_lookup_fmap, Hk.
    + rewrite !notified_app, Hdn, notified_upload_events. reflexivity.
    + apply Forall_app. split; [done|]. repeat constructor.
      apply Forall_app. split; [apply before_publish_events|].
      by repeat constructor.
  - apply elem_of_cons in Hin as [[=]|Hin].
    apply elem_of_cons in Hin as [[=]|Hin].
    apply elem_of_app in Hin as [Hin|Hin];
      [by apply failed_upload_not_in_events in Hin|].
    by apply elem_of_cons in Hin as [[=]|?%elem_of_nil].
  - apply elem_of_cons in Hin as [[=]|Hin].
    apply elem_of_cons in Hin as [[=]|Hin].
    apply elem_of_app in Hin as [Hin|Hin];
      [by apply failed_upload_not_in_events in Hin|].
    apply elem_of_cons in Hin as [[=]|Hin].
    by apply elem_of_cons in Hin as [[=]|?%elem_of_nil].
Qed.

Lemma upload_failure_aborts_witness :
  let E := demo_env ["dir/app.snap"; "dir/a.comp"; "dir/b.comp"; "dir/c.comp"]
             (Some ["a"; "b"; "c"]) ["dir/b.comp"] in
  let args := demo_args (Some "edge") [mkComponentOption "a" "a.comp";
                                       mkComponentOption "b" "b.comp";
                                       mkComponentOption "c" "c.comp"] in
  EvUploadFile "dir/b.comp" (inl (StoreError "refused")) ∈ (run E args []).2
  ∧ (run E args []).1 = inl (StoreError "refused")
  ∧ uploads (run E args []).2 = ["dir/app.snap"; "dir/a.comp"; "dir/b.comp"]
  ∧ notified (run E args []).2 = [].
Proof.
  intros E args.
  assert (EvUploadFile "dir/b.comp" (inl (StoreError "refused"))
          ∈ (run E args []).2) as Hin.
  { vm_compute. do 3 right. left. }
  split; [exact Hin|].
  destruct (upload_failure_aborts E args (run E args []).1 (run E args []).2
              "dir/b.comp" (StoreError "refused"))
    as (Hr & _ & _ & Hn & _).
  - apply surjective_pairing.
  - exact Hin.
  - split; [exact Hr|]. split; [reflexivity|exact Hn].
Defined.

(** ** The summary line *)

Lemma append_assoc_s (s1 s2 s3 : string) :
  (s1 +:+ s2) +:+ s3 = s1 +:+ s2 +:+ s3.
Proof.
  induction s1 as [|c s1 IH]; [reflexivity|].
  exact (f_equal (String c) IH).
Qed.

Lemma append_nil_r (s : string) : s +:+ "" = s.
Proof.
  induction s as [|c s IH]; [reflexivity|].
  exact (f_equal (String c) IH).
Qed.

(** The joining rule of [humanize_list]: the last two items are joined by
    the conjunction, and this pair and the items before it by commas. *)
Lemma humanize_list_rule pre a b conj :
  humanize_list (pre ++ [a; b]) conj
  = Py.join ", " (pre ++ [a +:+ " " +:+ conj +:+ " " +:+ b]).
Proof.
  induction pre as [|p pre IH]; [done|].
  change (humanize_list ((p :: pre) ++ [a; b]) conj)
    with (match pre ++ [a; b] with
          | [] => p
          | [y] => p +:+ " " +:+ conj +:+ " " +:+ y
          | _ => p +:+ ", " +:+ humanize_list (pre ++ [a; b]) conj
          end).
  rewrite IH. destruct pre as [|q [|q' pre]]; reflexivity.
Qed.

Lemma split_channels_nonempty chans cs :
  split_channels chans = Some cs → cs ≠ [].
Proof.
  unfold split_channels. destruct chans as [s|]; [|done].
  destruct (Py.truthy s); [|done]. intros [= <-]. apply split_nonempty.
Qed.

(** C9: a run that returns with channels to release to ends with the
    message [Revision <r> created for '<snap>' and released to <list>],
    where the list joins the channel names by the rule: last two items
    joined by [and], earlier items comma-separated; for [stable,edge] the
    message ends with [released to stable and edge]. *)
Theorem summary_joins_channels E args l cs :
  run E args [] = (inr tt, l) →
  split_channels (channels args) = Some cs →
  cs ≠ []
  ∧ ∃ revision n msg,
      last l = Some (EvMessage msg)
      ∧ msg = "Revision " +:+ Py.repr_int revision +:+ " created for "
              +:+ Py.repr n +:+ " and released to " +:+ humanize_list cs "and"
      ∧ (∀ a, cs = [a] → humanize_list cs "and" = a)
      ∧ (∀ pre a b, cs = pre ++ [a; b] →
           humanize_list cs "and"
           = Py.join ", " (pre ++ [a +:+ " and " +:+ b]))
      ∧ (cs = ["stable"; "edge"] →
         ∃ prefix, msg = prefix +:+ "released to stable and edge").
Proof.
  intros (sy & my & n & uid & hs & rev & _ & _ & Hlen & ->)%run_success Hcs.
  pose proof (split_channels_nonempty _ _ Hcs) as Hne.
  split; [done|]. rewrite Hcs.
  assert (summary rev n (Some cs)
          = "Revision " +:+ Py.repr_int rev +:+ " created for "
            +:+ Py.repr n +:+ " and released to " +:+ humanize_list cs "and")
    as Hsum.
  { unfold summary. destruct cs as [|c cs]; [done|]. cbv zeta.
    by rewrite !append_assoc_s. }
  exists rev, n, (summary rev n (Some cs)). split_and!.
  - match goal with
    | |- context [[?x; EvMessage ?m]] =>
        change [x; EvMessage m] with ([x] ++ [EvMessage m])
    end.
    rewrite !app_assoc. apply last_snoc.
  - exact Hsum.
  - by intros a ->.
  - intros pre a b ->. apply humanize_list_rule.
  - intros ->. rewrite Hsum.
    exists ("Revision " +:+ Py.repr_int rev +:+ " created for "
            +:+ Py.repr n +:+ " and ").
    by rewrite !append_assoc_s.
Qed.

Lemma summary_joins_channels_witness :
  let E := demo_env ["dir/app.snap"] None [] in
  let args := demo_args (Some "stable,edge") [] in
  (run E args []).1 = inr tt
  ∧ split_channels (channels args) = Some ["stable"; "edge"]
  ∧ last (run E args []).2
    = Some (EvMessage
              "Revision 3 created for 'app' and released to stable and edge").
Proof.
  intros E args. split; [reflexivity|]. split; [reflexivity|].
  destruct (summary_joins_channels E args (run E args []).2 ["stable"; "edge"])
    as (_ & rev & n & msg & Hlast & _).
  - reflexivity.
  - reflexivity.
  - reflexivity.
Defined.

(** * Further properties of the upload command *)

(** ** The option parser *)

Lemma lstrip_starts_clean s : starts_clean (Py.lstrip s).
Proof.
  induction s as [|c s IH]; simpl; [done|].
  destruct (Py.isspace c) eqn:Hc; [done|]. simpl. done.
Qed.

Lemma lstrip_clean_id s : starts_clean s → Py.lstrip s = s.
Proof. destruct s as [|c s]; simpl; [done|]. by intros ->. Qed.

Lemma rstrip_cons c s :
  Py.rstrip (String c s)
  = match Py.rstrip s with
    | EmptyString => if Py.isspace c then EmptyString else String c EmptyString
    | r => String c r
    end.
Proof. reflexivity. Qed.

Lemma rstrip_starts_clean s : starts_clean s → starts_clean (Py.rstrip s).
Proof.
  destruct s as [|c s]; [done|]. rewrite rstrip_cons. simpl. intros Hc.
  destruct (Py.rstrip s); simpl; by rewrite ?Hc.
Qed.

Lemma rstrip_idem s : Py.rstrip (Py.rstrip s) = Py.rstrip s.
Proof.
  induction s as [|c s IH]; [done|]. rewrite rstrip_cons.
  destruct (Py.rstrip s) as [|d r] eqn:Hr.
  - destruct (Py.isspace c) eqn:Hc; [done|].
    rewrite rstrip_cons. simpl. by rewrite Hc.
  - rewrite rstrip_cons, IH. reflexivity.
Qed.

(** Stripping twice is stripping once. *)
Lemma strip_idem s : Py.strip (Py.strip s) = Py.strip s.
Proof.
  unfold Py.strip.
  rewrite (lstrip_clean_id (Py.rstrip (Py.lstrip s))).
  - apply rstrip_idem.
  - apply rstrip_starts_clean, lstrip_starts_clean.
Qed.

Lemma contains_lstrip c s :
  Py.contains c s = false → Py.contains c (Py.lstrip s) = false.
Proof.
  induction s as [|d s IH]; simpl; [done|].
  intros [Hd Hs]%orb_false_iff. destruct (Py.isspace d); [by apply IH|].
  simpl. by rewrite Hd, Hs.
Qed.

Lemma contains_rstrip c s :
  Py.contains c s = false → Py.contains c (Py.rstrip s) = false.
Proof.
  induction s as [|d s IH]; [done|]. rewrite rstrip_cons. simpl.
  intros [Hd Hs]%orb_false_iff. specialize (IH Hs).
  destruct (Py.rstrip s) as [|d' r].
  - destruct (Py.isspace d); simpl; [done|]. by rewrite Hd.
  - change (Py.contains c (String d (String d' r)))
      with (Ascii.eqb d c || Py.contains c (String d' r)).
    by rewrite Hd, IH.
Qed.

Lemma contains_strip c s :
  Py.contains c s = false → Py.contains c (Py.strip s) = false.
Proof. intros H. by apply contains_rstrip, contains_lstrip. Qed.

Lemma kept_segments_elem v seg :
  seg ∈ kept_segments v →
  Py.contains "="%char seg = false ∧ Py.truthy (Py.strip seg) = true.
Proof.
  unfold kept_segments. rewrite list_elem_of_In, filter_In, <- list_elem_of_In.
  intros [Hseg Htr]. split; [by eapply split_no_sep|done].
Qed.

Lemma well_formed_strip seg :
  Py.contains "="%char seg = false → Py.truthy (Py.strip seg) = true →
  well_formed_part (Py.strip seg).
Proof.
  intros Hno Htr. split_and!.
  - intros Heq. by rewrite Heq in Htr.
  - apply strip_idem.
  - by apply contains_strip.
Qed.

(** Whatever the parser accepts, the name and the file name it returns
    are not empty, have no white space around them and hold no ['=']. *)
Theorem ComponentOption_call_well_formed v c :
  ComponentOption_call v = inr c →
  well_formed_part (name c) ∧ well_formed_part (filename c).
Proof.
  rewrite ComponentOption_call_kept.
  destruct (kept_segments v) as [|s1 [|s2 [|s3 l]]] eqn:Hk; try done.
  intros [= <-]. simpl.
  destruct (kept_segments_elem v s1) as [? ?]; [rewrite Hk; by left|].
  destruct (kept_segments_elem v s2) as [? ?]; [rewrite Hk; right; by left|].
  split; by apply well_formed_strip.
Qed.

Lemma ComponentOption_call_well_formed_witness :
  ComponentOption_call " snap-data = data.comp "
  = inr (mkComponentOption "snap-data" "data.comp")
  ∧ well_formed_part "snap-data" ∧ well_formed_part "data.comp".
Proof.
  split; [reflexivity|].
  apply (ComponentOption_call_well_formed " snap-data = data.comp "
           (mkComponentOption "snap-data" "data.comp")).
  reflexivity.
Defined.

Lemma split_no_sep_id sep s : Py.contains sep s = false → Py.split sep s = [s].
Proof.
  induction s as [|c s IH]; simpl; [done|].
  intros [Hc Hs]%orb_false_iff. rewrite Hc, (IH Hs). reflexivity.
Qed.

Lemma split_app_sep sep a b :
  Py.contains sep a = false →
  Py.split sep (a +:+ String sep b) = a :: Py.split sep b.
Proof.
  induction a as [|c a IH].
  - intros _. change (Py.split sep (String sep b)
                      = EmptyString :: Py.split sep b).
    simpl. by rewrite Ascii.eqb_refl.
  - simpl. intros [Hc Ha]%orb_false_iff.
    change (Py.split sep (String c (a +:+ String sep b))
            = String c a :: Py.split sep b).
    simpl. by rewrite Hc, (IH Ha).
Qed.

Lemma truthy_nonempty s : s ≠ "" → Py.truthy s = true.
Proof. by destruct s. Qed.

(** Round trip: writing a well-formed name and file name as [name=file]
    and parsing the result gives the two back. *)
Theorem ComponentOption_call_round_trip n f :
  well_formed_part n → well_formed_part f →
  ComponentOption_call (n +:+ "=" +:+ f) = inr (mkComponentOption n f).
Proof.
  intros (Hn & Hsn & Hcn) (Hf & Hsf & Hcf).
  unfold ComponentOption_call.
  change (n +:+ "=" +:+ f) with (n +:+ String "="%char f).
  rewrite split_app_sep, split_no_sep_id by done. simpl.
  rewrite Hsn, Hsf, !truthy_nonempty by done. reflexivity.
Qed.

Lemma ComponentOption_call_round_trip_witness :
  ComponentOption_call ("snap-data" +:+ "=" +:+ "data.comp")
  = inr (mkComponentOption "snap-data" "data.comp").
Proof.
  apply ComponentOption_call_round_trip;
    (split_and!; [discriminate|reflexivity|reflexivity]).
Defined.

(** A value without ['='] is never accepted. *)
Theorem ComponentOption_call_needs_separator v :
  Py.contains "="%char v = false →
  ComponentOption_call v
  = inl (ValueError "the component format must be <name>=<filename>").
Proof.
  intros Hv. unfold ComponentOption_call. rewrite split_no_sep_id by done.
  simpl. by destruct (Py.truthy (Py.strip v)).
Qed.

Lemma ComponentOption_call_needs_separator_witness :
  ComponentOption_call "data.comp"
  = inl (ValueError "the component format must be <name>=<filename>").
Proof. apply ComponentOption_call_needs_separator. reflexivity. Defined.

(** ** Errors of [run] before the store is called *)

(** A snap file that does not exist, or is not a regular file, is
    refused at once: nothing is read and the store is not called. *)
Theorem run_invalid_snap_file E args :
  path_exists E (snap_file args) = false
  ∨ path_is_file E (snap_file args) = false →
  run E args []
  = (inl (ArgumentParsingError
            (Py.repr (snap_file args) +:+ " is not a valid file")), []).
Proof.
  intros H. unfold run.
  assert (negb (path_exists E (snap_file args))
          || negb (path_is_file E (snap_file args)) = true) as ->; [|done].
  destruct H as [-> | ->]; [done|]. apply orb_true_r.
Qed.

Lemma run_invalid_snap_file_witness :
  run (demo_env [] (Some ["comp-a"]) []) (demo_args None []) []
  = (inl (ArgumentParsingError "'dir/app.snap' is not a valid file"), []).
Proof.
  apply (run_invalid_snap_file (demo_env [] (Some ["comp-a"]) [])
           (demo_args None [])).
  left. reflexivity.
Defined.

Lemma check_expected_first_missing pre d post P :
  (∀ x, x ∈ pre → x ∈ map name P) →
  d ∉ map name P →
  check_expected (pre ++ d :: post) P
  = inl (ValueError ("Component " +:+ Py.repr d +:+ " is missing.")).
Proof.
  intros Hpre Hd. induction pre as [|x pre IH]; simpl.
  - by apply elem_false in Hd as ->.
  - assert (Py.elem x (map name P) = true) as ->.
    { apply elem_spec, Hpre. by left. }
    simpl. apply IH. intros y Hy. apply Hpre. by right.
Qed.

(** With components declared and some provided, the first declared name
    (in the order of the metadata) that no provided component has is
    reported as missing; this comes before any look at unknown names or
    at files, and before any call to the store. *)
Theorem run_first_missing_component E args sy my n pre d post :
  reaches_validation E args sy my n →
  declared sy = pre ++ d :: post →
  (∀ x, x ∈ pre → x ∈ map name (component args)) →
  d ∉ map name (component args) →
  component args ≠ [] →
  run E args []
  = (inl (ValueError ("Component " +:+ Py.repr d +:+ " is missing.")), []).
Proof.
  intros Hreach HD Hpre Hd HP.
  assert (declared sy ≠ []) as Hne.
  { rewrite HD. by destruct pre. }
  rewrite (run_reaches _ _ _ _ _ Hreach), (expected_of_declared _ Hne), HD.
  assert (debug_log sy = []) as ->.
  { unfold debug_log, declared in *.
    by destruct (sy_components sy) as [[|]|]. }
  unfold validate.
  destruct (pre ++ d :: post) as [|k ks] eqn:Hk; [by destruct pre|].
  destruct (component args) as [|p P] eqn:Hcs; [done|].
  rewrite <- Hk, (check_expected_first_missing pre d post (p :: P)) by done.
  reflexivity.
Qed.

Lemma run_first_missing_component_witness :
  run (demo_env ["dir/app.snap"] (Some ["comp-a"; "comp-b"; "comp-c"]) [])
      (demo_args None [mkComponentOption "comp-a" "a.comp";
                       mkComponentOption "other" "o.comp"]) []
  = (inl (ValueError "Component 'comp-b' is missing."), []).
Proof.
  apply (run_first_missing_component
           (demo_env ["dir/app.snap"] (Some ["comp-a"; "comp-b"; "comp-c"]) [])
           (demo_args None [mkComponentOption "comp-a" "a.comp";
                            mkComponentOption "other" "o.comp"])
           (mkSnapYaml (Some "app") (Some ["comp-a"; "comp-b"; "comp-c"]))
           None "app" ["comp-a"] "comp-b" ["comp-c"]).
  - unfold reaches_validation. repeat split; reflexivity.
  - reflexivity.
  - intros x ->%list_elem_of_singleton. by left.
  - intros Hin. by repeat (apply elem_of_cons in Hin as [[=]|Hin]);
      apply elem_of_nil in Hin.
  - discriminate.
Defined.

Lemma check_provided_first_bad E sf D pre c post :
  (∀ c', c' ∈ pre →
         name c' ∈ D ∧ path_exists E (component_path E sf c') = true) →
  check_provided E sf D (pre ++ c :: post)
  = if Py.elem (name c) D
    then if path_exists E (component_path E sf c)
         then check_provided E sf D post
         else inl (RuntimeError (component_path E sf c +:+ " does not exist!"))
    else inl (ValueError ("Unknown component " +:+ Py.repr (name c) +:+ ".")).
Proof.
  intros Hpre. induction pre as [|x pre IH]; simpl.
  - destruct (Py.elem (name c) D); simpl; [|done].
    by destruct (path_exists E (component_path E sf c)).
  - destruct (Hpre x) as [Hx Hex]; [by left|].
    apply elem_spec in Hx. rewrite Hx, Hex. simpl.
    apply IH. intros c' Hc'. apply Hpre. by right.
Qed.

Lemma run_check_provided E args sy my n :
  reaches_validation E args sy my n →
  declared sy ≠ [] →
  component args ≠ [] →
  (∀ x, x ∈ declared sy → x ∈ map name (component args)) →
  ∀ e, check_provided E (snap_file args) (declared sy) (component args) = inl e →
       run E args [] = (inl e, []).
Proof.
  intros Hreach HD HP Hall e He.
  rewrite (run_reaches _ _ _ _ _ Hreach), (expected_of_declared _ HD).
  assert (debug_log sy = []) as ->.
  { unfold debug_log, declared in *.
    by destruct (sy_components sy) as [[|]|]. }
  unfold validate. destruct (declared sy) as [|k ks] eqn:Hk; [done|].
  destruct (component args) as [|p P] eqn:Hcs; [done|].
  apply check_expected_ok in Hall. by rewrite Hall, He.
Qed.



(** Under the same conditions, the first provided component whose name is
    declared but whose file (the snap's directory joined with the file
    name) does not exist stops the run with [RuntimeError] naming that
    path, before any call to the store. *)
Theorem run_first_missing_file E args sy my n pre c post :
  reaches_validation E args sy my n →
  declared sy ≠ [] →
  (∀ x, x ∈ declared sy → x ∈ map name (component args)) →
  component args = pre ++ c :: post →
  (∀ c', c' ∈ pre →
         name c' ∈ declared sy
         ∧ path_exists E (component_path E (snap_file args) c') = true) →
  name c ∈ declared sy →
  path_exists E (component_path E (snap_file args) c) = false →
  run E args []
  = (inl (RuntimeError
            (path_join E (path_parent E (snap_file args)) (filename c)
             +:+ " does not exist!")), []).
Proof.
  intros Hreach HD Hall HP Hpre Hc Hex.
  apply (run_check_provided E args sy my n Hreach HD); [|done|].
  - rewrite HP. by destruct pre.
  - rewrite HP, check_provided_first_bad by done.
    apply elem_spec in Hc. by rewrite Hc, Hex.
Qed.

Lemma run_first_missing_file_witness :
  run (demo_env ["dir/app.snap"; "dir/a.comp"] (Some ["comp-a"; "comp-b"]) [])
      (demo_args None [mkComponentOption "comp-a" "a.comp";
                       mkComponentOption "comp-b" "b.comp"]) []
  = (inl (RuntimeError "dir/b.comp does not exist!"), []).
Proof.
  apply (run_first_missing_file
           (demo_env ["dir/app.snap"; "dir/a.comp"] (Some ["comp-a"; "comp-b"]) [])
           (demo_args None [mkComponentOption "comp-a" "a.comp";
                            mkComponentOption "comp-b" "b.comp"])
           (mkSnapYaml (Some "app") (Some ["comp-a"; "comp-b"])) None "app"
           [mkComponentOption "comp-a" "a.comp"]
           (mkComponentOption "comp-b" "b.comp") []).
  - unfold reaches_validation. repeat split; reflexivity.
  - discriminate.
  - intros x [-> | ->%list_elem_of_singleton]%elem_of_cons;
      [by left|right; by left].
  - reflexivity.
  - intros c' ->%list_elem_of_singleton. split; [by left|reflexivity].
  - right. by left.
  - reflexivity.
Defined.

(** ** Failures of the store and the shape of a finished run *)

Lemma reaches_validation_fun E args sy my n sy' my' n' :
  reaches_validation E args sy my n →
  reaches_validation E args sy' my' n' →
  sy = sy' ∧ my = my' ∧ n = n'.
Proof.
  intros (_ & _ & _ & Hd & Hn) (_ & _ & _ & Hd' & Hn').
  rewrite Hd in Hd'. injection Hd' as <- <-.
  rewrite Hn in Hn'. by injection Hn' as <-.
Qed.

Lemma elem_of_debug_log sy ev : ev ∈ debug_log sy → ∃ msg, ev = EvDebug msg.
Proof.
  unfold debug_log. destruct (sy_components sy) as [[|]|];
    try (by intros ?%elem_of_nil);
    intros [->|?%elem_of_nil]%elem_of_cons; eauto; done.
Qed.

Lemma elem_of_upload_events E sf cs hs ev :
  ev ∈ upload_events E sf cs hs → ∃ p h, ev = EvUploadFile p (inr h).
Proof.
  revert hs. induction cs as [|c cs IH]; intros [|h hs]; simpl;
    try by intros ?%elem_of_nil.
  intros [->|Hin]%elem_of_cons; [eauto|by eapply IH].
Qed.

Lemma is_debug_debug_log sy : Forall (fun ev => is_debug ev = true) (debug_log sy).
Proof.
  unfold debug_log. destruct (sy_components sy) as [[|]|]; repeat constructor.
Qed.

(** When [verify_upload] refuses the snap, the run raises that refusal
    and stops there: no file is uploaded and nothing is published. *)
Theorem verify_failure_aborts E args r l n e :
  run E args [] = (r, l) →
  EvVerifyUpload n (inl e) ∈ l →
  r = inl e
  ∧ last l = Some (EvVerifyUpload n (inl e))
  ∧ uploads l = []
  ∧ notified l = [].
Proof.
  intros [(e' & -> & Hl)|(sy & my & n' & _ & _ & evs & -> & Hshape)]%run_cases.
  { destruct Hl as [->|[msg ->]].
    - by intros ?%elem_of_nil.
    - by intros [[=]|?%elem_of_nil]%elem_of_cons. }
  intros [Hin|Hin]%elem_of_app.
  { by apply elem_of_debug_log in Hin as [msg [=]]. }
  pose proof (debug_log_silent sy) as (Hdu & Hdn & _).
  destruct Hshape as [e'|e'|e' uid k c hs Hk Hlen|e' uid hs Hlen|uid hs rev Hlen].
  - apply elem_of_cons in Hin as [[= -> ->]|?%elem_of_nil]; [|done].
    split_and!; [done|apply last_snoc|..].
    + by rewrite uploads_app, Hdu.
    + by rewrite notified_app, Hdn.
  - apply elem_of_cons in Hin as [[=]|Hin].
    by apply elem_of_cons in Hin as [[=]|?%elem_of_nil].
  - apply elem_of_cons in Hin as [[=]|Hin].
    apply elem_of_cons in Hin as [[=]|Hin].
    apply elem_of_app in Hin as [Hin|Hin].
    { by apply elem_of_upload_events in Hin as (? & ? & [=]). }
    by apply elem_of_cons in Hin as [[=]|?%elem_of_nil].
  - apply elem_of_cons in Hin as [[=]|Hin].
    apply elem_of_cons in Hin as [[=]|Hin].
    apply elem_of_app in Hin as [Hin|Hin].
    { by apply elem_of_upload_events in Hin as (? & ? & [=]). }
    by apply elem_of_cons in Hin as [[=]|?%elem_of_nil].
  - apply elem_of_cons in Hin as [[=]|Hin].
    apply elem_of_cons in Hin as [[=]|Hin].
    apply elem_of_app in Hin as [Hin|Hin].
    { by apply elem_of_upload_events in Hin as (? & ? & [=]). }
    apply elem_of_cons in Hin as [[=]|Hin].
    by apply elem_of_cons in Hin as [[=]|?%elem_of_nil].
Qed.

(** No file reaches [upload_file] before [verify_upload] has accepted the
    name found in the snap's metadata: in the log of any run with an
    upload, the first store call is that successful check, with at most
    the debug line before it. *)
Theorem upload_needs_verify E args r l :
  run E args [] = (r, l) →
  uploads l ≠ [] →
  ∃ sy my n dbg rest,
    reaches_validation E args sy my n
    ∧ l = dbg ++ EvVerifyUpload n (inr tt) :: rest
    ∧ Forall (fun ev => is_debug ev = true) dbg.
Proof.
  intros [(e' & -> & Hl)|(sy & my & n & Hreach & _ & evs & -> & Hshape)]%run_cases.
  { by destruct Hl as [->|[msg ->]]. }
  intros Hup. pose proof (is_debug_debug_log sy) as Hdbg.
  destruct Hshape as [e'|e'|e' uid k c hs Hk Hlen|e' uid hs Hlen|uid hs rev Hlen].
  - rewrite uploads_app, (proj1 (debug_log_silent sy)) in Hup. done.
  - by exists sy, my, n, (debug_log sy), [EvUploadFile (snap_file args) (inl e')].
  - eexists sy, my, n, (debug_log sy), _. split_and!; [done| |done]. reflexivity.
  - eexists sy, my, n, (debug_log sy), _. split_and!; [done| |done]. reflexivity.
  - eexists sy, my, n, (debug_log sy), _. split_and!; [done| |done]. reflexivity.
Qed.

Lemma upload_needs_verify_witness :
  let E := demo_env ["dir/app.snap"] None ["dir/app.snap"] in
  let args := demo_args None [] in
  uploads (run E args []).2 = ["dir/app.snap"]
  ∧ ∃ dbg rest, (run E args []).2 = dbg ++ EvVerifyUpload "app" (inr tt) :: rest
                ∧ Forall (fun ev => is_debug ev = true) dbg.
Proof.
  intros E args. split; [reflexivity|].
  destruct (upload_needs_verify E args (run E args []).1 (run E args []).2)
    as (sy & my & n & dbg & rest & Hreach & Hl & Hdbg).
  - apply surjective_pairing.
  - discriminate.
  - exists dbg, rest. split; [|exact Hdbg].
    destruct (reaches_validation_fun E args sy my n
                (mkSnapYaml (Some "app") None) None "app" Hreach)
      as (_ & _ & ->); [|exact Hl].
    unfold reaches_validation. repeat split; reflexivity.
Defined.

Lemma verify_failure_aborts_witness :
  let E := mkEnv (fun _ => true) (fun _ => true) (fun _ => "dir")
             (fun d f => d +:+ "/" +:+ f) (fun _ => 1%Z) (inr tt)
             (fun _ => inr (mkSnapYaml (Some "app") None, None))
             (fun _ _ => inl (StoreError "not registered"))
             (fun _ p => inr p) (fun _ _ => inr 1%Z) in
  let args := demo_args None [mkComponentOption "x" "x.comp"] in
  (run E args []).1 = inl (StoreError "not registered")
  ∧ uploads (run E args []).2 = []
  ∧ notified (run E args []).2 = [].
Proof.
  intros E args.
  destruct (verify_failure_aborts E args (run E args []).1 (run E args []).2
              "app" (StoreError "not registered")) as (Hr & _ & Hu & Hn).
  - apply surjective_pairing.
  - right. left.
  - by split_and!.
Defined.

(** When [notify_upload] fails, every file has been uploaded, the run
    raises that failure, and no summary line is printed. *)
Theorem notify_failure_aborts E args r l req e :
  run E args [] = (r, l) →
  EvNotifyUpload req (inl e) ∈ l →
  r = inl e
  ∧ last l = Some (EvNotifyUpload req (inl e))
  ∧ uploads l = upload_plan E args
  ∧ ∀ msg, EvMessage msg ∉ l.
Proof.
  intros [(e' & -> & Hl)|(sy & my & n' & _ & _ & evs & -> & Hshape)]%run_cases.
  { destruct Hl as [->|[msg ->]].
    - by intros ?%elem_of_nil.
    - by intros [[=]|?%elem_of_nil]%elem_of_cons. }
  intros [Hin|Hin]%elem_of_app.
  { by apply elem_of_debug_log in Hin as [msg [=]]. }
  pose proof (debug_log_silent sy) as (Hdu & Hdn & _).
  destruct Hshape as [e'|e'|e' uid k c hs Hk Hlen|e' uid hs Hlen|uid hs rev Hlen].
  - by apply elem_of_cons in Hin as [[=]|?%elem_of_nil].
  - apply elem_of_cons in Hin as [[=]|Hin].
    by apply elem_of_cons in Hin as [[=]|?%elem_of_nil].
  - apply elem_of_cons in Hin as [[=]|Hin].
    apply elem_of_cons in Hin as [[=]|Hin].
    apply elem_of_app in Hin as [Hin|Hin].
    { by apply elem_of_upload_events in Hin as (? & ? & [=]). }
    by apply elem_of_cons in Hin as [[=]|?%elem_of_nil].
  - apply elem_of_cons in Hin as [[=]|Hin].
    apply elem_of_cons in Hin as [[=]|Hin].
    apply elem_of_app in Hin as [Hin|Hin].
    { by apply elem_of_upload_events in Hin as (? & ? & [=]). }
    apply elem_of_cons in Hin as [[= <- <-]|?%elem_of_nil]; [|done].
    split_and!.
    + done.
    + rewrite !app_assoc. apply last_snoc.
    + rewrite !uploads_app, Hdu, uploads_upload_events by done.
      unfold upload_plan. simpl. by rewrite app_nil_r.
    + intros msg [Hm|Hm]%elem_of_app.
      { by apply elem_of_debug_log in Hm as [? [=]]. }
      apply elem_of_cons in Hm as [[=]|Hm].
      apply elem_of_cons in Hm as [[=]|Hm].
      apply elem_of_app in Hm as [Hm|Hm].
      { by apply elem_of_upload_events in Hm as (? & ? & [=]). }
      by apply elem_of_cons in Hm as [[=]|?%elem_of_nil].
  - apply elem_of_cons in Hin as [[=]|Hin].
    apply elem_of_cons in Hin as [[=]|Hin].
    apply elem_of_app in Hin as [Hin|Hin].
    { by apply elem_of_upload_events in Hin as (? & ? & [=]). }
    apply elem_of_cons in Hin as [[=]|Hin].
    by apply elem_of_cons in Hin as [[=]|?%elem_of_nil].
Qed.

Lemma notify_failure_aborts_witness :
  let E := mkEnv (fun _ => true) (fun _ => true) (fun _ => "dir")
             (fun d f => d +:+ "/" +:+ f) (fun _ => 1%Z) (inr tt)
             (fun _ => inr (mkSnapYaml (Some "app") None, None))
             (fun _ _ => inr tt)
             (fun _ p => inr p) (fun _ _ => inl (StoreError "review failed")) in
  let args := demo_args (Some "edge") [] in
  (run E args []).1 = inl (StoreError "review failed")
  ∧ uploads (run E args []).2 = ["dir/app.snap"]
  ∧ ∀ msg, EvMessage msg ∉ (run E args []).2.
Proof.
  intros E args.
  destruct (notify_failure_aborts E args (run E args []).1 (run E args []).2
              (mkNotifyArgs "app" "dir/app.snap" None (Some ["edge"]) 1 ∅)
              (StoreError "review failed")) as (Hr & _ & Hu & Hm).
  - apply surjective_pairing.
  - do 3 right. left.
  - by split_and!.
Defined.

(** The publish request of a run that returns carries the name from the
    snap's metadata, the handle [upload_file] returned for the snap file
    (the first upload of the log), the build time of the manifest when
    there is one, the channels of [--release] and the size of the snap
    file. *)
Theorem publish_request_fields E args sy my n l :
  reaches_validation E args sy my n →
  run E args [] = (inr tt, l) →
  ∃ req upload_id before after,
    notified l = [req]
    ∧ l = before ++ EvUploadFile (snap_file args) (inr upload_id) :: after
    ∧ uploads before = []
    ∧ na_snap_name req = n
    ∧ na_upload_id req = upload_id
    ∧ na_built_at req = my ≫= snapcraft_started_at
    ∧ na_channels req = split_channels (channels args)
    ∧ na_snap_file_size req = st_size E (snap_file args).
Proof.
  intros Hreach
    (sy' & my' & n' & uid & hs & rev & Hreach' & _ & Hlen & ->)%run_success.
  destruct (reaches_validation_fun _ _ _ _ _ _ _ _ Hreach Hreach')
    as (<- & <- & <-).
  eexists _, uid, (debug_log sy ++ [EvVerifyUpload n (inr tt)]), _.
  split_and!.
  - rewrite !notified_app, (proj1 (proj2 (debug_log_silent sy))).
    rewrite notified_upload_events. simpl. reflexivity.
  - rewrite <- app_assoc. reflexivity.
  - by rewrite uploads_app, (proj1 (debug_log_silent sy)).
  - reflexivity.
  - reflexivity.
  - reflexivity.
  - reflexivity.
  - reflexivity.
Qed.

Lemma publish_request_fields_witness :
  let E := mkEnv (fun _ => true) (fun _ => true) (fun _ => "dir")
             (fun d f => d +:+ "/" +:+ f) (fun _ => 8192%Z) (inr tt)
             (fun _ => inr (mkSnapYaml (Some "app") None,
                            Some (mkManifestYaml (Some "2023-05-01T10:00:00Z"))))
             (fun _ _ => inr tt)
             (fun _ p => inr ("id:" +:+ p)) (fun _ _ => inr 7%Z) in
  let args := demo_args (Some "beta,edge") [] in
  ∃ req, notified (run E args []).2 = [req]
         ∧ na_snap_name req = "app"
         ∧ na_upload_id req = "id:dir/app.snap"
         ∧ na_built_at req = Some "2023-05-01T10:00:00Z"
         ∧ na_channels req = Some ["beta"; "edge"]
         ∧ na_snap_file_size req = 8192%Z.
Proof.
  intros E args.
  destruct (publish_request_fields E args
              (mkSnapYaml (Some "app") None)
              (Some (mkManifestYaml (Some "2023-05-01T10:00:00Z"))) "app"
              (run E args []).2)
    as (req & uid & before & after & Hreq & _).
  - unfold reaches_validation. repeat split; reflexivity.
  - reflexivity.
  - exists req. split; [exact Hreq|].
    injection Hreq as <-. repeat split; reflexivity.
Defined.

(** Without [--release], or with an empty one, nothing is released: the
    run that returns ends with the publish request, which has no channel
    list, and then the summary line, which is [Revision <r> created for
    <name>] and nothing more, with the revision the store answered to
    that request and the [repr] of the name in the snap's metadata. *)
Theorem run_without_release E args sy my n l :
  reaches_validation E args sy my n →
  channels args = None ∨ channels args = Some "" →
  run E args [] = (inr tt, l) →
  ∃ req revision before,
    l = before
        ++ [EvNotifyUpload req (inr revision);
            EvMessage ("Revision " +:+ Py.repr_int revision
                       +:+ " created for " +:+ Py.repr n)]
    ∧ notified before = []
    ∧ na_channels req = None.
Proof.
  intros Hreach Hch
    (sy' & my' & n' & uid & hs & rev & Hreach' & _ & Hlen & ->)%run_success.
  destruct (reaches_validation_fun _ _ _ _ _ _ _ _ Hreach Hreach')
    as (<- & <- & <-).
  assert (split_channels (channels args) = None) as ->.
  { by destruct Hch as [-> | ->]. }
  eexists _, rev,
    (debug_log sy ++ [_; _] ++ upload_events E (snap_file args) (component args) hs).
  split_and!.
  - rewrite <- !app_assoc. reflexivity.
  - rewrite !notified_app, (proj1 (proj2 (debug_log_silent sy))).
    by rewrite notified_upload_events.
  - reflexivity.
Qed.

Lemma run_without_release_witness :
  let E := demo_env ["dir/app.snap"] None [] in
  let args := demo_args (Some "") [] in
  ∃ req before,
    (run E args []).2
    = before ++ [EvNotifyUpload req (inr 3%Z);
                 EvMessage "Revision 3 created for 'app'"]
    ∧ na_channels req = None.
Proof.
  intros E args.
  destruct (run_without_release E args (mkSnapYaml (Some "app") None) None
              "app" (run E args []).2)
    as (req & rev & before & Hl & _ & Hch).
  - unfold reaches_validation. repeat split; reflexivity.
  - by right.
  - reflexivity.
  - exists req, before. split; [|exact Hch].
    assert (rev = 3%Z) as ->; [|exact Hl].
    apply (f_equal (fun l => last (removelast l))) in Hl.
    rewrite removelast_app in Hl by discriminate. simpl in Hl.
    rewrite last_snoc in Hl. vm_compute in Hl. by injection Hl as <-.
Defined.

(** A snap without components uploaded without [--component]: the run
    that returns has logged the debug line, the name check, one upload
    (the snap), a publish request with an empty component mapping, and
    the summary line, in this order and nothing else. *)
Theorem run_snap_only E args sy my n l :
  reaches_validation E args sy my n →
  declared sy = [] →
  component args = [] →
  run E args [] = (inr tt, l) →
  ∃ upload_id revision,
    l = [EvDebug "No components found in snap metadata.";
         EvVerifyUpload n (inr tt);
         EvUploadFile (snap_file args) (inr upload_id);
         EvNotifyUpload
           (mkNotifyArgs n upload_id (my ≫= snapcraft_started_at)
              (split_channels (channels args)) (st_size E (snap_file args)) ∅)
           (inr revision);
         EvMessage (summary revision n (split_channels (channels args)))].
Proof.
  intros Hreach HD HP
    (sy' & my' & n' & uid & hs & rev & Hreach' & _ & Hlen & ->)%run_success.
  destruct (reaches_validation_fun _ _ _ _ _ _ _ _ Hreach Hreach')
    as (<- & <- & <-).
  rewrite HP in *. destruct hs; [|done].
  exists uid, rev. unfold debug_log, declared in *.
  by destruct (sy_components sy) as [[|]|].
Qed.

Lemma run_snap_only_witness :
  let E := demo_env ["dir/app.snap"] (Some []) [] in
  let args := demo_args None [] in
  uploads (run E args []).2 = ["dir/app.snap"]
  ∧ map na_components (notified (run E args []).2) = [∅].
Proof.
  intros E args.
  destruct (run_snap_only E args (mkSnapYaml (Some "app") (Some [])) None "app"
              (run E args []).2) as (uid & rev & Hl).
  - unfold reaches_validation. repeat split; reflexivity.
  - reflexivity.
  - reflexivity.
  - reflexivity.
  - rewrite Hl. split; reflexivity.
Defined.

(** [_get_components] never fails and never returns an empty key view:
    it returns [None], after logging the debug line, exactly when the
    metadata has no [components] entry or an empty one, and otherwise the
    declared names with the log untouched. *)
Theorem get_components_result snap_yaml l :
  ∃ res l',
    _get_components snap_yaml l = (inr res, l')
    ∧ res ≠ Some []
    ∧ (res = None ↔ declared snap_yaml = [])
    ∧ (res = None →
       l' = l ++ [EvDebug "No components found in snap metadata."])
    ∧ (∀ keys, res = Some keys → keys = declared snap_yaml ∧ l' = l).
Proof.
  unfold _get_components, declared.
  destruct (sy_components snap_yaml) as [[|k ks]|]; simpl.
  - exists None, (l ++ [EvDebug "No components found in snap metadata."]).
    by split_and!.
  - exists (Some (k :: ks)), l. split_and!; try done.
    by intros keys [= <-].
  - exists None, (l ++ [EvDebug "No components found in snap metadata."]).
    by split_and!.
Qed.

(** * The git wrapper *)

Ltac git_unfold :=
  unfold Git.is_repo, Git._init_repo, Git.__init__, Git.add_all, Git.commit,
    Git.is_clean, Git.push_url, Git.except_GitError,
    Git.except_GitError_KeyError, Git.invoke, Git.raise,
    mbind, mret, Git.G_bind, Git.G_ret in *.

(** A path that is not a directory is refused with [FileNotFoundError],
    and pygit2 is not called at all. *)
Theorem GitRepo_init_not_a_directory P path l :
  Git.is_dir P path = false →
  Git.__init__ P path l
  = (inl (Git.FileNotFoundError
            ("Could not initialize a git repository because "
             +:+ Py.repr path +:+ " does not exist or is not a directory.")),
     l).
Proof. intros H. unfold Git.__init__. rewrite H. simpl. reflexivity. Qed.

Lemma GitRepo_init_not_a_directory_witness :
  Git.__init__ (Git.demo ["proj"] [] []) "proj/missing" []
  = (inl (Git.FileNotFoundError
            ("Could not initialize a git repository because "
             +:+ "'proj/missing' does not exist or is not a directory.")), []).
Proof.
  apply (GitRepo_init_not_a_directory (Git.demo ["proj"] [] []) "proj/missing" []).
  reflexivity.
Defined.

Ltac elem_cases H :=
  repeat (apply elem_of_cons in H as [H|H]; [try discriminate H|]);
  try (by apply elem_of_nil in H).

(** Opening a directory starts with a discovery that stops at the
    directory itself (its parent is the ceiling).  A repository found
    there is opened as it is; otherwise one is initialised first, in that
    directory and no other.  A [GitRepo] comes back only after
    [pygit2.Repository] opened the path, and holds that path and that
    repository. *)
Theorem GitRepo_init_initializes_when_needed P path r l' :
  Git.is_dir P path = true →
  Git.__init__ P path [] = (r, l') →
  let discover :=
    Git.discover_repository path false (Git.parent P (Git.absolute P path)) in
  let found :=
    Git.answer_discover_repository P [] path false
      (Git.parent P (Git.absolute P path)) in
  (∃ rest, l' = discover :: rest)
  ∧ (∀ p, Git.init_repository p ∈ l' →
          p = path ∧ ∃ o, found = inr o ∧ Git.truthy_path o = false)
  ∧ (∀ o, found = inr o → Git.truthy_path o = true →
          l' = [discover; Git.Repository path])
  ∧ (∀ g, r = inr g →
          Git.path g = path
          ∧ (l' = [discover; Git.Repository path]
             ∨ l' = [discover; Git.init_repository path; Git.Repository path])
          ∧ ∃ before, l' = before ++ [Git.Repository path]
                      ∧ Git.answer_Repository P before path = inr (Git._repo g)).
Proof.
  intros Hdir Hrun discover found. subst discover found. revert Hrun.
  unfold Git.__init__. rewrite Hdir. simpl. git_unfold. simpl.
  destruct (Git.answer_discover_repository P [] path false _) as [e|o] eqn:Hd.
  { destruct e; intros [= <- <-]; (split_and!; [by eexists|..]);
      try done; intros p Hp; elem_cases Hp. }
  destruct (Git.truthy_path o) eqn:Ho; simpl.
  - destruct (Git.answer_Repository P _ path) as [e|g] eqn:Hr;
      intros [= <- <-]; (split_and!; [by eexists|..]); try done.
    + intros p Hp; elem_cases Hp.
    + intros p Hp; elem_cases Hp.
    + intros g' [= <-]. split_and!; [done|by left|].
      by eexists [_].
  - destruct (Git.answer_init_repository P _ path) as [e|[]] eqn:Hi.
    { destruct e; intros [= <- <-]; (split_and!; [by eexists|..]);
        try done; try (by intros ? [= <-]; congruence);
        intros p Hp; elem_cases Hp; simplify_eq; eauto. }
    destruct (Git.answer_Repository P _ path) as [e|g] eqn:Hr;
      intros [= <- <-]; (split_and!; [by eexists|..]); try done.
    + intros p Hp; elem_cases Hp; simplify_eq; eauto.
    + intros ? [= <-]. congruence.
    + intros p Hp; elem_cases Hp; simplify_eq; eauto.
    + intros ? [= <-]. congruence.
    + intros g' [= <-]. split_and!; [done|by right|].
      by eexists [_; _].
Qed.

Lemma GitRepo_init_initializes_when_needed_witness :
  Git.__init__ (Git.demo ["proj"; "old"] ["old"] []) "proj" []
  = (inr (Git.mkGitRepo "proj" "repo:proj"),
     [Git.discover_repository "proj" false "/work";
      Git.init_repository "proj"; Git.Repository "proj"])
  ∧ ∀ o, Git.answer_discover_repository (Git.demo ["proj"; "old"] ["old"] [])
           [] "old" false "/work" = inr o →
         Git.truthy_path o = true →
         (Git.__init__ (Git.demo ["proj"; "old"] ["old"] []) "old" []).2
         = [Git.discover_repository "old" false "/work"; Git.Repository "old"].
Proof.
  split; [reflexivity|].
  apply (GitRepo_init_initializes_when_needed
           (Git.demo ["proj"; "old"] ["old"] []) "old"
           (Git.__init__ (Git.demo ["proj"; "old"] ["old"] []) "old" []).1
           (Git.__init__ (Git.demo ["proj"; "old"] ["old"] []) "old" []).2).
  - reflexivity.
  - apply surjective_pairing.
Defined.

(** [commit] writes the index as a tree and then creates the commit on
    [HEAD] from that very tree, with [auto commit] as the name and the
    e-mail of both author and committer and with no parent.  If the tree
    cannot be written, the commit is never attempted. *)
Theorem commit_calls P self message l r l' :
  Git.commit P self message l = (r, l') →
  let auto := Git.mkSignature "auto commit" "auto commit" in
  (r = inr tt →
   ∃ tree,
     Git.answer_index_write_tree P l (Git._repo self) = inr tree
     ∧ l' = l ++ [Git.index_write_tree (Git._repo self);
                  Git.create_commit (Git._repo self) "HEAD" auto auto
                    message tree []])
  ∧ (Git.answer_index_write_tree P l (Git._repo self) = inl Git.Pygit2GitError →
     r = inl (Git.GitError
                ("Could not create a tree for the git repository in "
                 +:+ Py.repr (Git.path self) +:+ "."))
     ∧ l' = l ++ [Git.index_write_tree (Git._repo self)])
  ∧ (∀ tree,
       Git.answer_index_write_tree P l (Git._repo self) = inr tree →
       Git.answer_create_commit P (l ++ [Git.index_write_tree (Git._repo self)])
         (Git._repo self) "HEAD" auto auto message tree []
       = inl Git.Pygit2GitError →
       r = inl (Git.GitError
                  ("Could not create a commit for the git repository in "
                   +:+ Py.repr (Git.path self) +:+ ".")))
  ∧ (∀ repo ref a c m t ps,
       Git.create_commit repo ref a c m t ps ∈ l' →
       Git.create_commit repo ref a c m t ps ∈ l
       ∨ (repo = Git._repo self ∧ ref = "HEAD" ∧ a = auto ∧ c = auto
          ∧ m = message ∧ ps = []
          ∧ Git.answer_index_write_tree P l (Git._repo self) = inr t)).
Proof.
  intros Hrun auto. subst auto. revert Hrun. git_unfold. simpl.
  destruct (Git.answer_index_write_tree P l _) as [e|tree] eqn:Ht.
  { destruct e; intros [= <- <-]; split_and!; try done;
      intros repo ref a c m t ps [Hin|Hin]%elem_of_app; auto; elem_cases Hin. }
  destruct (Git.answer_create_commit P _ _ _ _ _ _ _ _) as [e|oid] eqn:Hc.
  { destruct e; intros [= <- <-]; rewrite <- ?app_assoc; simpl;
      (split_and!; try done);
      try (intros ? [= <-] ?; first [reflexivity|congruence]);
      intros repo ref a c m t ps [Hin|Hin]%elem_of_app; auto;
      elem_cases Hin; inversion Hin; subst; right; by split_and!. }
  intros [= <- <-]. rewrite <- app_assoc. simpl. split_and!.
  - intros _. by exists tree.
  - done.
  - intros ? [= <-] ?. congruence.
  - intros repo ref a c m t ps [Hin|Hin]%elem_of_app; auto.
    elem_cases Hin. inversion Hin; subst. right. by split_and!.
Qed.

Lemma commit_calls_witness :
  Git.commit (Git.demo ["proj"] ["proj"] []) (Git.mkGitRepo "proj" "repo:proj")
    Git.commit_default_message []
  = (inr tt,
     [Git.index_write_tree "repo:proj";
      Git.create_commit "repo:proj" "HEAD"
        (Git.mkSignature "auto commit" "auto commit")
        (Git.mkSignature "auto commit" "auto commit")
        "auto commit" "tree-1" []])
  ∧ (Git.commit (Git.demo ["proj"] ["proj"] [0]) (Git.mkGitRepo "proj" "repo:proj")
       Git.commit_default_message []).1
    = inl (Git.GitError
             "Could not create a tree for the git repository in 'proj'.").
Proof.
  split; [reflexivity|].
  apply (commit_calls (Git.demo ["proj"] ["proj"] [0])
           (Git.mkGitRepo "proj" "repo:proj") Git.commit_default_message []
           (Git.commit (Git.demo ["proj"] ["proj"] [0])
              (Git.mkGitRepo "proj" "repo:proj") Git.commit_default_message []).1
           (Git.commit (Git.demo ["proj"] ["proj"] [0])
              (Git.mkGitRepo "proj" "repo:proj") Git.commit_default_message []).2).
  - apply surjective_pairing.
  - reflexivity.
Defined.

(** A refspec that does not resolve, be it by [KeyError] or by
    [pygit2.GitError], makes [push_url] raise [GitError] naming the
    refspec and the repository, and the remote is never contacted. *)
Theorem push_url_unresolved P self remote_url refspec l :
  Git.answer_lookup_reference_dwim P l (Git._repo self) refspec
    = inl Git.PyKeyError
  ∨ Git.answer_lookup_reference_dwim P l (Git._repo self) refspec
    = inl Git.Pygit2GitError →
  Git.push_url P self remote_url refspec l
  = (inl (Git.GitError
            ("Could not resolve reference " +:+ Py.repr refspec
             +:+ " for the git repository in "
             +:+ Py.repr (Git.path self) +:+ ".")),
     l ++ [Git.lookup_reference_dwim (Git._repo self) refspec]).
Proof. git_unfold. by intros [-> | ->]. Qed.

Lemma push_url_unresolved_witness :
  Git.push_url (Git.demo ["proj"] ["proj"] []) (Git.mkGitRepo "proj" "repo:proj")
    "test-url" "bad-refspec" []
  = (inl (Git.GitError
            ("Could not resolve reference 'bad-refspec' for the git "
             +:+ "repository in 'proj'.")),
     [Git.lookup_reference_dwim "repo:proj" "bad-refspec"]).
Proof.
  apply (push_url_unresolved (Git.demo ["proj"] ["proj"] [])
           (Git.mkGitRepo "proj" "repo:proj") "test-url" "bad-refspec" []).
  left. reflexivity.
Defined.

(** A push that returns has resolved the refspec, made an anonymous
    remote for the url and pushed to it the name of the reference found,
    not the refspec as given; whenever [push_url] pushes at all, it
    pushes that one name to that url. *)
Theorem push_url_pushes_resolved_name P self remote_url refspec l r l' :
  Git.push_url P self remote_url refspec l = (r, l') →
  (r = inr tt →
   ∃ reference,
     Git.answer_lookup_reference_dwim P l (Git._repo self) refspec = inr reference
     ∧ l' = l ++ [Git.lookup_reference_dwim (Git._repo self) refspec;
                  Git.remotes_create_anonymous (Git._repo self) remote_url;
                  Git.remote_push remote_url [reference]])
  ∧ (∀ url specs,
       Git.remote_push url specs ∈ l' →
       Git.remote_push url specs ∈ l
       ∨ (url = remote_url
          ∧ ∃ reference,
              specs = [reference]
              ∧ Git.answer_lookup_reference_dwim P l (Git._repo self) refspec
                = inr reference)).
Proof.
  git_unfold. simpl.
  destruct (Git.answer_lookup_reference_dwim P l _ refspec) as [e|ref] eqn:Hl.
  { destruct e; intros [= <- <-]; split; try done;
      intros url specs [Hin|Hin]%elem_of_app; auto; elem_cases Hin. }
  destruct (Git.answer_remotes_create_anonymous P _ _ _) as [e|[]] eqn:Ha.
  { destruct e; intros [= <- <-]; rewrite <- ?app_assoc; (split; [done|]);
      intros url specs [Hin|Hin]%elem_of_app; auto; elem_cases Hin. }
  destruct (Git.answer_remote_push P _ _ _) as [e|[]] eqn:Hp.
  { destruct e; intros [= <- <-]; rewrite <- ?app_assoc; simpl;
      (split; [done|]);
      intros url specs [Hin|Hin]%elem_of_app; auto; elem_cases Hin;
      inversion Hin; subst; right; eauto. }
  intros [= <- <-]. rewrite <- !app_assoc. simpl. split.
  - intros _. by exists ref.
  - intros url specs [Hin|Hin]%elem_of_app; auto. elem_cases Hin.
    inversion Hin; subst. right. eauto.
Qed.

Lemma push_url_pushes_resolved_name_witness :
  Git.push_url (Git.demo ["proj"] ["proj"] []) (Git.mkGitRepo "proj" "repo:proj")
    "file:///srv/remote" Git.push_url_default_refspec []
  = (inr tt,
     [Git.lookup_reference_dwim "repo:proj" "HEAD";
      Git.remotes_create_anonymous "repo:proj" "file:///srv/remote";
      Git.remote_push "file:///srv/remote" ["refs/heads/main"]])
  ∧ ∀ url specs,
      Git.remote_push url specs
      ∈ (Git.push_url (Git.demo ["proj"] ["proj"] [])
           (Git.mkGitRepo "proj" "repo:proj")
           "file:///srv/remote" Git.push_url_default_refspec []).2 →
      url = "file:///srv/remote" ∧ specs = ["refs/heads/main"].
Proof.
  split; [reflexivity|]. intros url specs Hin.
  destruct (push_url_pushes_resolved_name (Git.demo ["proj"] ["proj"] [])
              (Git.mkGitRepo "proj" "repo:proj")
              "file:///srv/remote" Git.push_url_default_refspec [] _ _
              (surjective_pairing _)) as [_ Hpush].
  destruct (Hpush url specs Hin) as [Hnil|(-> & ref & -> & Href)].
  - by apply elem_of_nil in Hnil.
  - injection Href as <-. done.
Defined.

(** [is_clean] answers [True] exactly when the status of the repository
    is the empty dictionary. *)
Theorem is_clean_iff_no_status P self l b l' :
  Git.is_clean P self l = (inr b, l') →
  l' = l ++ [Git.status (Git._repo self)]
  ∧ (b = true ↔ Git.answer_status P l (Git._repo self) = inr []).
Proof.
  git_unfold. simpl.
  destruct (Git.answer_status P l _) as [e|st] eqn:Hs.
  { by destruct e. }
  intros [= <- <-]. split; [done|]. destruct st; split; congruence.
Qed.

Lemma is_clean_iff_no_status_witness :
  (Git.is_clean (Git.demo ["proj"] ["proj"] [])
     (Git.mkGitRepo "proj" "repo:proj") []).1 = inr true
  ∧ (true = true ↔
     Git.answer_status (Git.demo ["proj"] ["proj"] []) [] "repo:proj" = inr []).
Proof.
  split; [reflexivity|].
  apply (is_clean_iff_no_status (Git.demo ["proj"] ["proj"] [])
           (Git.mkGitRepo "proj" "repo:proj") [] true
           [Git.status "repo:proj"]).
  reflexivity.
Defined.

(** [is_repo] asks pygit2 once, for the path itself with the parent of
    its absolute form as the ceiling and without crossing file systems;
    the answer is the truth value of what was discovered, and a
    [pygit2.GitError] comes out as the module's [GitError]. *)
Theorem is_repo_result P path l r l' :
  Git.is_repo P path l = (r, l') →
  let found :=
    Git.answer_discover_repository P l path false
      (Git.parent P (Git.absolute P path)) in
  l' = l ++ [Git.discover_repository path false
               (Git.parent P (Git.absolute P path))]
  ∧ (∀ b, r = inr b ↔ ∃ o, found = inr o ∧ b = Git.truthy_path o)
  ∧ (found = inl Git.Pygit2GitError ↔
     r = inl (Git.GitError
                ("Could not check for git repository in "
                 +:+ Py.repr path +:+ "."))).
Proof.
  intros Hrun found. subst found. revert Hrun. git_unfold. simpl.
  destruct (Git.answer_discover_repository P l path false _) as [e|o] eqn:Hd.
  - destruct e; intros [= <- <-]; (split_and!; [done|..]); try done;
      intros b; split; try done; by intros (? & [=] & _).
  - intros [= <- <-]. split_and!; [done| |done].
    intros b. split.
    + intros [= <-]. by exists o.
    + by intros (? & [= <-] & ->).
Qed.

Lemma is_repo_result_witness :
  Git.is_repo (Git.demo ["parent-repo"] ["parent-repo"] [])
    "parent-repo/not-a-repo" []
  = (inr false,
     [Git.discover_repository "parent-repo/not-a-repo" false
        "/work/parent-repo"])
  ∧ ((Git.is_repo (Git.demo ["proj"] [] [0]) "proj" []).1
     = inl (Git.GitError "Could not check for git repository in 'proj'.")).
Proof.
  split; [reflexivity|].
  apply (is_repo_result (Git.demo ["proj"] [] [0]) "proj" []
           (Git.is_repo (Git.demo ["proj"] [] [0]) "proj" []).1
           (Git.is_repo (Git.demo ["proj"] [] [0]) "proj" []).2
           (surjective_pairing _)).
  reflexivity.
Defined.

(** No operation on an open repository lets a [pygit2.GitError] through,
    and none raises [FileNotFoundError]: every failure of git comes out
    as the module's [GitError], and its details name the path of the
    repository. *)
Theorem git_errors_are_wrapped P self m l r l' :
  Git.run_method P self m l = (r, l') →
  r ≠ inl (Git.Uncaught Git.Pygit2GitError)
  ∧ (∀ msg, r ≠ inl (Git.FileNotFoundError msg))
  ∧ (∀ details, r = inl (Git.GitError details) →
       ∃ before after, details = before +:+ Py.repr (Git.path self) +:+ after).
Proof.
  destruct m as [|message| |remote_url refspec]; unfold Git.run_method;
    git_unfold; simpl.
  - destruct (Git.answer_index_add_all P l _) as [e|[]] eqn:H1.
    { destruct e; intros [= <- <-]; split_and!; try done.
      intros ? [= <-].
      exists "Could not add changes for the git repository in ", "".
      by rewrite append_nil_r. }
    destruct (Git.answer_index_write P _ _) as [e|[]] eqn:H2.
    { destruct e; intros [= <- <-]; split_and!; try done.
      intros ? [= <-].
      exists "Could not add changes for the git repository in ", "".
      by rewrite append_nil_r. }
    by intros [= <- <-].
  - destruct (Git.answer_index_write_tree P l _) as [e|tree] eqn:H1.
    { destruct e; intros [= <- <-]; split_and!; try done.
      intros ? [= <-]. by eexists _, ".". }
    destruct (Git.answer_create_commit P _ _ _ _ _ _ _ _) as [e|oid] eqn:H2.
    { destruct e; intros [= <- <-]; split_and!; try done.
      intros ? [= <-].
      by exists "Could not create a commit for the git repository in ", ".". }
    by intros [= <- <-].
  - destruct (Git.answer_status P l _) as [e|st] eqn:H1.
    { destruct e; intros [= <- <-]; split_and!; try done.
      intros ? [= <-]. by eexists _, " is clean.". }
    by intros [= <- <-].
  - destruct (Git.answer_lookup_reference_dwim P l _ _) as [e|ref] eqn:H1.
    { destruct e; intros [= <- <-]; split_and!; try done;
        intros ? [= <-];
        exists ("Could not resolve reference " +:+ Py.repr refspec
                +:+ " for the git repository in "), ".";
        by rewrite !append_assoc_s. }
    destruct (Git.answer_remotes_create_anonymous P _ _ _) as [e|[]] eqn:H2.
    { destruct e; intros [= <- <-]; split_and!; try done.
      intros ? [= <-].
      exists ("Could not push " +:+ Py.repr refspec +:+ " to "
              +:+ Py.repr remote_url +:+ " for the git repository in "), ".".
      by rewrite !append_assoc_s. }
    destruct (Git.answer_remote_push P _ _ _) as [e|[]] eqn:H3.
    { destruct e; intros [= <- <-]; split_and!; try done.
      intros ? [= <-].
      exists ("Could not push " +:+ Py.repr refspec +:+ " to "
              +:+ Py.repr remote_url +:+ " for the git repository in "), ".".
      by rewrite !append_assoc_s. }
    by intros [= <- <-].
Qed.

Lemma git_errors_are_wrapped_witness :
  (Git.run_method (Git.demo ["proj"] ["proj"] [1])
     (Git.mkGitRepo "proj" "repo:proj") Git.m_add_all []).1
  = inl (Git.GitError "Could not add changes for the git repository in 'proj'")
  ∧ (Git.run_method (Git.demo ["proj"] ["proj"] [1])
       (Git.mkGitRepo "proj" "repo:proj") Git.m_add_all []).1
    ≠ inl (Git.Uncaught Git.Pygit2GitError).
Proof.
  split; [reflexivity|].
  apply (git_errors_are_wrapped (Git.demo ["proj"] ["proj"] [1])
           (Git.mkGitRepo "proj" "repo:proj") Git.m_add_all []
           _ _ (surjective_pairing _)).
Defined.

(** * The lint command *)

Lemma lint_bind_inv {A B} (m : Lint.L A) (k : A → Lint.L B) l r l' :
  (m ≫= k) l = (r, l') →
  (∃ e, m l = (inl e, l') ∧ r = inl e)
  ∨ (∃ a l1, m l = (inr a, l1) ∧ k a l1 = (r, l')).
Proof.
  unfold mbind, Lint.L_bind. destruct (m l) as [[e|a] l1].
  - intros [= <- <-]. left. eauto.
  - intros Hk. right. eauto.
Qed.

Lemma only_ret {A} ok (a : A) : Lint.only ok (mret a).
Proof. intros l r l' [= <- <-]. exists []. by rewrite app_nil_r. Qed.

Lemma only_raise {A} ok e : Lint.only ok (@Lint.raise A e).
Proof. intros l r l' [= <- <-]. exists []. by rewrite app_nil_r. Qed.

Lemma only_emit ok c : ok c = true → Lint.only ok (Lint.emit c).
Proof. intros Hc l r l' [= <- <-]. exists [c]. simpl. by rewrite Hc. Qed.

Lemma only_invoke {A} ok c (answer : list Lint.call → Lint.raised + A) :
  ok c = true → Lint.only ok (Lint.invoke c answer).
Proof.
  intros Hc l r l'. unfold Lint.invoke.
  destruct (answer l); intros [= <- <-]; exists [c]; simpl; by rewrite Hc.
Qed.

Lemma only_bind {A B} ok (m : Lint.L A) (k : A → Lint.L B) :
  Lint.only ok m → (∀ a, Lint.only ok (k a)) → Lint.only ok (m ≫= k).
Proof.
  intros Hm Hk l r l' [(e & Hml & ->)|(a & l1 & Hml & Hka)]%lint_bind_inv.
  - by apply Hm in Hml.
  - apply Hm in Hml as (add1 & -> & H1). apply Hk in Hka as (add2 & -> & H2).
    exists (add1 ++ add2). rewrite app_assoc, forallb_app, H1, H2. done.
Qed.

Lemma only_with {A B} ok (enter : Lint.L A) exit (body : A → Lint.L B) :
  Lint.only ok enter → (∀ a, ok (exit a) = true) →
  (∀ a, Lint.only ok (body a)) → Lint.only ok (Lint.with_ enter exit body).
Proof.
  intros He Hx Hb l r l'. unfold Lint.with_.
  destruct (enter l) as [[e|a] l1] eqn:Hel.
  - intros [= <- <-]. by apply He in Hel.
  - destruct (body a l1) as [r2 l2] eqn:Hbl. intros [= <- <-].
    apply He in Hel as (add1 & -> & H1). apply Hb in Hbl as (add2 & -> & H2).
    exists (add1 ++ add2 ++ [exit a]).
    rewrite !app_assoc, !forallb_app, H1, H2. simpl. by rewrite Hx.
Qed.

Lemma only_except_SubprocessError {A} ok (m : Lint.L A) e :
  Lint.only ok m → Lint.only ok (Lint.except_SubprocessError m e).
Proof.
  intros Hm l r l'. unfold Lint.except_SubprocessError.
  destruct (m l) as [[[| | | | |[]]|a] l1] eqn:Hml; intros [= <- <-];
    by apply Hm in Hml.
Qed.

Lemma only_except_FileNotFoundError {A} ok (m h : Lint.L A) :
  Lint.only ok m → Lint.only ok h →
  Lint.only ok (Lint.except_FileNotFoundError m h).
Proof.
  intros Hm Hh l r l'. unfold Lint.except_FileNotFoundError.
  destruct (m l) as [[[| | | | |[]]|a] l1] eqn:Hml;
    try (intros [= <- <-]; by apply Hm in Hml).
  intros Hhl. apply Hm in Hml as (add1 & -> & H1).
  apply Hh in Hhl as (add2 & -> & H2).
  exists (add1 ++ add2). by rewrite app_assoc, forallb_app, H1, H2.
Qed.

Lemma only_load_snap_metadata W sf file :
  Lint.only (fun c => negb (Lint.provider_call c))
    (Lint._load_snap_metadata W sf file).
Proof.
  unfold Lint._load_snap_metadata.
  apply only_with; [by apply only_invoke|done|]. intros temp_dir.
  apply only_bind; [by apply only_emit|intros _].
  apply only_bind.
  { apply only_except_SubprocessError. by apply only_invoke. }
  intros _. apply only_except_FileNotFoundError; [by apply only_invoke|].
  apply only_bind; [by apply only_emit|intros _]. apply only_ret.
Qed.

Lemma only_get_lint_filters W sf :
  Lint.only (fun c => negb (Lint.provider_call c)) (Lint._get_lint_filters W sf).
Proof.
  unfold Lint._get_lint_filters.
  apply only_bind; [apply only_load_snap_metadata|intros y].
  destruct (negb (Lint.truthy_yaml y)).
  { apply only_bind; [by apply only_emit|intros _]. apply only_ret. }
  apply only_bind; [by apply only_invoke|intros yd].
  apply only_bind; [by apply only_invoke|intros yda].
  apply only_bind; [by apply only_invoke|intros _].
  by apply only_invoke.
Qed.

Lemma only_run_linter W sf :
  Lint.only (fun c => negb (Lint.provider_call c)) (Lint._run_linter W sf).
Proof.
  unfold Lint._run_linter.
  apply only_bind; [apply only_load_snap_metadata|intros md].
  apply only_bind; [by apply only_emit|intros _].
  apply only_bind.
  { apply only_except_SubprocessError. by apply only_invoke. }
  intros _. apply only_bind; [apply only_get_lint_filters|intros lf].
  apply only_bind.
  { unfold Lint.getitem_name. destruct md as [m|]; [|apply only_raise].
    destruct (m !! "name"); [apply only_ret|apply only_raise]. }
  intros n. apply only_bind; [by apply only_invoke|intros issues].
  apply only_bind; [by apply only_invoke|intros st].
  destruct (_ || _); [apply only_raise|apply only_ret].
Qed.

Lemma only_run_in_provider W args :
  Lint.only (fun c => negb (Lint.host_call c)) (Lint._run_in_provider W args).
Proof.
  unfold Lint._run_in_provider.
  apply only_bind; [by apply only_emit|intros _].
  apply only_bind; [by apply only_invoke|intros provider].
  apply only_bind; [by apply only_invoke|intros _].
  apply only_bind; [by apply only_invoke|intros bc].
  apply only_bind; [by apply only_emit|intros _].
  apply only_with; [by apply only_invoke|done|]. intros inst.
  apply only_bind; [by apply only_invoke|intros _].
  by apply only_invoke.
Qed.

(** The two ways of linting never mix.  When the command hands the work
    to a provider, nothing is unpacked, installed or linted on this
    machine; when it lints here (inside a managed environment, or with
    the build environment forced to [host]), no provider and no instance
    is touched. *)
Theorem lint_branches_do_not_mix W args r l :
  Lint.run W args [] = (r, l) →
  (lint_dispatch (Lint.is_managed_mode W) (Lint.SNAPCRAFT_BUILD_ENVIRONMENT W)
   = RunInProvisionedEnvironment →
   forallb (fun c => negb (Lint.host_call c)) l = true)
  ∧ (lint_dispatch (Lint.is_managed_mode W) (Lint.SNAPCRAFT_BUILD_ENVIRONMENT W)
     = RunLocal →
     forallb (fun c => negb (Lint.provider_call c)) l = true).
Proof.
  intros Hrun. split; intros Hd.
  - assert (Lint.only (fun c => negb (Lint.host_call c)) (Lint.run W args)) as H.
    { unfold Lint.run. rewrite Hd.
      apply only_bind; [by apply only_emit|intros _].
      destruct (_ || _); [apply only_raise|].
      apply only_bind; [apply only_run_in_provider|intros _].
      by apply only_emit. }
    by apply H in Hrun as (added & -> & Hok).
  - assert (Lint.only (fun c => negb (Lint.provider_call c)) (Lint.run W args)) as H.
    { unfold Lint.run. rewrite Hd.
      apply only_bind; [by apply only_emit|intros _].
      destruct (_ || _); [apply only_raise|].
      apply only_bind; [|intros _; by apply only_emit].
      apply only_bind; [by apply only_emit|intros _].
      apply only_run_linter. }
    by apply H in Hrun as (added & -> & Hok).
Qed.

Lemma lint_branches_do_not_mix_witness :
  forallb (fun c => negb (Lint.provider_call c))
    (Lint.run (Lint.demo false (Some "host") 0 [])
       (Lint.mkParsedArgs "app.snap" true None None) []).2 = true.
Proof.
  apply (lint_branches_do_not_mix (Lint.demo false (Some "host") 0 [])
           (Lint.mkParsedArgs "app.snap" true None None) _ _
           (surjective_pairing _)).
  reflexivity.
Defined.

Ltac lint_unfold :=
  unfold Lint.run, Lint._run_in_provider, Lint._run_linter,
    Lint._get_lint_filters, Lint._load_snap_metadata, Lint.getitem_name,
    Lint.with_, Lint.except_SubprocessError, Lint.except_FileNotFoundError,
    Lint.invoke, Lint.emit, Lint.raise, mbind, mret, Lint.L_bind, Lint.L_ret
    in *.

(** Outside a managed environment and without the host override, a run
    that returns has done exactly this: asked for the provider ([lxd]
    with [--use-lxd], the default one otherwise), checked that it is
    available, built the base configuration for the instance
    [snapcraft-linter] with the proxies of the command line, launched
    the instance, pushed the snap into [/root] under its own file name,
    run [snapcraft lint <snap-file>] inside with [check=True], and left
    the instance. *)
Theorem lint_provider_sequence W args l :
  lint_dispatch (Lint.is_managed_mode W) (Lint.SNAPCRAFT_BUILD_ENVIRONMENT W)
  = RunInProvisionedEnvironment →
  Lint.run W args [] = (inr tt, l) →
  ∃ provider base_configuration instance,
    l = [Lint.debug "Running linter.";
         Lint.debug "Checking build provider availability";
         Lint.get_provider (if Lint.use_lxd args then Some "lxd" else None);
         Lint.ensure_provider_is_available provider;
         Lint.get_base_configuration (Lint.build_base W) "snapcraft-linter"
           (Lint.http_proxy args) (Lint.https_proxy args);
         Lint.progress "Launching instance...";
         Lint.launched_environment provider "linter" (Lint.cwd W)
           base_configuration (Lint.build_base_value W) "snapcraft-linter";
         Lint.push_file instance (Lint.snap_file args)
           (Lint.join W "/root" (Lint.name_of W (Lint.snap_file args)));
         Lint.execute_run instance
           ["snapcraft"; "lint"; Lint.snap_file args] true;
         Lint.launched_environment_exit instance;
         Lint.debug "linter run successfully"].
Proof.
  intros Hd. unfold Lint.run. rewrite Hd. lint_unfold. simpl.
  destruct (_ || _); [done|].
  repeat (case_match; simplify_eq; try done).
  all: intros [= <-]; by eexists _, _, _.
Qed.

Lemma lint_provider_sequence_witness :
  ∃ provider base_configuration instance,
    (Lint.run (Lint.demo false None 0 [])
       (Lint.mkParsedArgs "app.snap" true None (Some "http://proxy:3128")) []).2
    = [Lint.debug "Running linter.";
       Lint.debug "Checking build provider availability";
       Lint.get_provider (Some "lxd");
       Lint.ensure_provider_is_available provider;
       Lint.get_base_configuration "BuilddBaseAlias.JAMMY" "snapcraft-linter"
         None (Some "http://proxy:3128");
       Lint.progress "Launching instance...";
       Lint.launched_environment provider "linter" "/work"
         base_configuration "22.04" "snapcraft-linter";
       Lint.push_file instance "app.snap" "/root/app.snap";
       Lint.execute_run instance ["snapcraft"; "lint"; "app.snap"] true;
       Lint.launched_environment_exit instance;
       Lint.debug "linter run successfully"].
Proof.
  apply (lint_provider_sequence (Lint.demo false None 0 [])
           (Lint.mkParsedArgs "app.snap" true None (Some "http://proxy:3128"))).
  - reflexivity.
  - reflexivity.
Defined.

(** An instance that was used is always released: once the snap has
    been pushed, the log goes on to leave that same instance, whether
    the push and the command inside succeeded or not; after that only
    messages follow, and no other instance is ever run. *)
Theorem launched_instance_is_released W args r l inst src dst :
  Lint.run W args [] = (r, l) →
  Lint.push_file inst src dst ∈ l →
  ∃ before after,
    l = before ++ Lint.launched_environment_exit inst :: after
    ∧ Lint.push_file inst src dst ∈ before
    ∧ forallb Lint.message_call after = true
    ∧ (∀ i cmd check, Lint.execute_run i cmd check ∈ l → i = inst).
Proof.
  intros Hrun Hin.
  destruct (lint_dispatch (Lint.is_managed_mode W)
              (Lint.SNAPCRAFT_BUILD_ENVIRONMENT W)) eqn:Hd.
  { destruct (lint_branches_do_not_mix W args r l Hrun) as [_ Hlocal].
    specialize (Hlocal Hd). rewrite forallb_forall in Hlocal.
    apply list_elem_of_In, Hlocal in Hin. done. }
  revert Hrun Hin. unfold Lint.run. rewrite Hd. lint_unfold. simpl.
  destruct (_ || _).
  { intros [= <- <-] Hin. elem_cases Hin. }
  repeat (case_match; simplify_eq; try done).
  all: intros [= <- <-] Hin; simpl in Hin; elem_cases Hin; simplify_eq.
  all: first
    [ eexists [_; _; _; _; _; _; _; _], _;
      (split_and!; [reflexivity|do 7 right; left|reflexivity|])
    | eexists [_; _; _; _; _; _; _; _; _], _;
      (split_and!; [reflexivity|do 7 right; left|reflexivity|]) ];
    intros i cmd check Hx; simpl in Hx; elem_cases Hx; by simplify_eq.
Qed.


(** How [_run_linter] can end with an error of the command itself, and
    how it returns. *)
Lemma run_linter_outcome W sf l r l' :
  Lint._run_linter W sf l = (r, l') →
  (∀ msg code, r = inl (Lint.LinterError msg code) →
     msg = "Linter errors found"
     ∧ (code = Lint.ERRORS W ∨ code = Lint.FATAL W)
     ∧ ∃ before issues,
         l' = before ++ [Lint.report issues true]
         ∧ Lint.answer_report W before issues true = inr code)
  ∧ (r = inr tt →
     ∃ before issues status,
       l' = before ++ [Lint.report issues true]
       ∧ Lint.answer_report W before issues true = inr status
       ∧ status ≠ Lint.ERRORS W ∧ status ≠ Lint.FATAL W)
  ∧ (∀ msg, r = inl (Lint.SnapcraftError msg) →
     (msg = "Failed to install snap {snap_data['name']}."
      ∧ ∃ before,
          l' = before ++ [Lint.check_output
                            ["snap"; "install"; sf; "--dangerous"]]
          ∧ Lint.answer_check_output W before
              ["snap"; "install"; sf; "--dangerous"] = inl Lint.SubprocessError)
     ∨ (msg = "Failed to unsquash snap file "
              +:+ Lint.name_of W (Lint.resolve W sf)
        ∧ ∃ before temp_dir,
            l' = before
                 ++ [Lint.check_output
                       ["unsquashfs"; "-force"; "-dest"; temp_dir;
                        Lint.resolve W sf];
                     Lint.TemporaryDirectory_cleanup temp_dir]
            ∧ Lint.answer_check_output W before
                ["unsquashfs"; "-force"; "-dest"; temp_dir; Lint.resolve W sf]
              = inl Lint.SubprocessError)).
Proof.
  lint_unfold. simpl.
  repeat (case_match; simplify_eq; try done).
  all: intros [= <- <-];
    (split_and!; [intros msg code Hr|intros Hr|intros msg Hr]); try done.
  all: simplify_eq.
  all: try match goal with
    | H : _ || _ = true |- _ =>
        apply orb_true_iff in H as [H|H]; apply bool_decide_eq_true in H
    | H : _ || _ = false |- _ =>
        apply orb_false_iff in H as [H H'];
        apply bool_decide_eq_false in H; apply bool_decide_eq_false in H'
    end.
  all: first
    [ by (split_and!; [done|auto|eexists _, _; split; [reflexivity|done]])
    | by (eexists _, _, _; split_and!; [reflexivity|eassumption|done|done])
    | by (left; split; [done|eexists; split; [reflexivity|done]])
    | by (right; split; [done|eexists _, _; split;
            [rewrite <- app_assoc; reflexivity|done]]) ].
Qed.

(** The status that [linters.report] gives decides how the local lint
    ends: [LinterError], with the message [Linter errors found] and the
    status as exit code, exactly for the statuses [ERRORS] and [FATAL];
    a return for every other status.  Either way the report is the last
    call. *)
Theorem linter_status_decides W sf l r l' :
  Lint._run_linter W sf l = (r, l') →
  (∀ msg code, r = inl (Lint.LinterError msg code) →
     msg = "Linter errors found"
     ∧ (code = Lint.ERRORS W ∨ code = Lint.FATAL W)
     ∧ ∃ before issues,
         l' = before ++ [Lint.report issues true]
         ∧ Lint.answer_report W before issues true = inr code)
  ∧ (r = inr tt →
     ∃ before issues status,
       l' = before ++ [Lint.report issues true]
       ∧ Lint.answer_report W before issues true = inr status
       ∧ status ≠ Lint.ERRORS W ∧ status ≠ Lint.FATAL W).
Proof.
  intros Hrun. destruct (run_linter_outcome W sf l r l' Hrun) as (H1 & H2 & _).
  by split.
Qed.

Lemma linter_status_decides_witness :
  (Lint._run_linter (Lint.demo true None 3 []) "app.snap" []).1
  = inl (Lint.LinterError "Linter errors found" 3)
  ∧ (3%Z = Lint.ERRORS (Lint.demo true None 3 [])
     ∨ 3%Z = Lint.FATAL (Lint.demo true None 3 [])).
Proof.
  split; [reflexivity|].
  destruct (linter_status_decides (Lint.demo true None 3 []) "app.snap" []
              _ _ (surjective_pairing _)) as [H _].
  apply (H "Linter errors found" 3%Z). reflexivity.
Defined.

(** [SnapcraftError] comes out of the local lint in two ways only, both
    a failed subprocess.  Either [snap install <snap> --dangerous]
    failed: the install is then the last call, and the message is the
    text of the source as it stands, with its braces.  Or [unsquashfs]
    failed: its temporary directory is removed and nothing follows; the
    message names the snap file. *)
Theorem snapcraft_error_sources W sf l r l' msg :
  Lint._run_linter W sf l = (r, l') →
  r = inl (Lint.SnapcraftError msg) →
  (msg = "Failed to install snap {snap_data['name']}."
   ∧ ∃ before,
       l' = before ++ [Lint.check_output ["snap"; "install"; sf; "--dangerous"]]
       ∧ Lint.answer_check_output W before
           ["snap"; "install"; sf; "--dangerous"] = inl Lint.SubprocessError)
  ∨ (msg = "Failed to unsquash snap file "
           +:+ Lint.name_of W (Lint.resolve W sf)
     ∧ ∃ before temp_dir,
         l' = before
              ++ [Lint.check_output
                    ["unsquashfs"; "-force"; "-dest"; temp_dir;
                     Lint.resolve W sf];
                  Lint.TemporaryDirectory_cleanup temp_dir]
         ∧ Lint.answer_check_output W before
             ["unsquashfs"; "-force"; "-dest"; temp_dir; Lint.resolve W sf]
           = inl Lint.SubprocessError).
Proof.
  intros Hrun Hr. destruct (run_linter_outcome W sf l r l' Hrun) as (_ & _ & H).
  by apply H.
Qed.

Lemma snapcraft_error_sources_witness :
  (Lint._run_linter (Lint.demo true None 0 [6]) "app.snap" []).1
  = inl (Lint.SnapcraftError "Failed to install snap {snap_data['name']}.")
  ∧ ∃ before,
      (Lint._run_linter (Lint.demo true None 0 [6]) "app.snap" []).2
      = before ++ [Lint.check_output ["snap"; "install"; "app.snap"; "--dangerous"]].
Proof.
  split; [reflexivity|].
  destruct (snapcraft_error_sources (Lint.demo true None 0 [6]) "app.snap" []
              _ _ "Failed to install snap {snap_data['name']}."
              (surjective_pairing _) eq_refl)
    as [(_ & before & Hl & _)|(Hmsg & _)].
  - by exists before.
  - discriminate Hmsg.
Defined.

Lemma launched_instance_is_released_witness :
  (Lint.run (Lint.demo false None 0 [7])
     (Lint.mkParsedArgs "app.snap" false None None) []).1
  = inl (Lint.Uncaught Lint.SubprocessError)
  ∧ ∃ before after,
      (Lint.run (Lint.demo false None 0 [7])
         (Lint.mkParsedArgs "app.snap" false None None) []).2
      = before ++ Lint.launched_environment_exit "snapcraft-linter" :: after.
Proof.
  split; [reflexivity|].
  destruct (launched_instance_is_released (Lint.demo false None 0 [7])
              (Lint.mkParsedArgs "app.snap" false None None) _ _
              "snapcraft-linter" "app.snap" "/root/app.snap"
              (surjective_pairing _))
    as (before & after & Hl & _).
  - do 7 right. left.
  - by exists before, after.
Defined.

(** ** The decision of the lint command *)

Ltac only_step :=
  lazymatch goal with
  | |- Lint.only _ (mret _) => apply only_ret
  | |- Lint.only _ (Lint.raise _) => apply only_raise
  | |- Lint.only _ (Lint.emit _) => apply only_emit; reflexivity
  | |- Lint.only _ (Lint.invoke _ _) => apply only_invoke; reflexivity
  | |- Lint.only _ (Lint.except_SubprocessError _ _) =>
      apply only_except_SubprocessError
  | |- Lint.only _ (Lint.except_FileNotFoundError _ _) =>
      apply only_except_FileNotFoundError
  | |- Lint.only _ (Lint.with_ _ _ _) =>
      apply only_with; [|reflexivity|intros ?]
  | |- Lint.only _ (_ ≫= _) => apply only_bind; [|intros ?]
  | |- Lint.only _ (let _ := _ in _) => cbv zeta
  end.

Ltac only_steps := repeat only_step.

Lemma lint_emit_starts {B} c (k : Lint.L B) cs :
  (∀ l r l', k l = (r, l') → ∃ rest, l' = l ++ cs ++ rest) →
  ∀ l r l', (Lint.emit c ;; k) l = (r, l') → ∃ rest, l' = l ++ c :: cs ++ rest.
Proof.
  intros Hk l r l'. unfold mbind, Lint.L_bind, Lint.emit.
  intros (rest & ->)%Hk. exists rest. by rewrite <- app_assoc.
Qed.

Lemma lint_bind_starts {A B} (m : Lint.L A) (k : A → Lint.L B) cs :
  (∀ l r l', m l = (r, l') → ∃ rest, l' = l ++ cs ++ rest) →
  (∀ a, Lint.only (fun _ => true) (k a)) →
  ∀ l r l', (m ≫= k) l = (r, l') → ∃ rest, l' = l ++ cs ++ rest.
Proof.
  intros Hm Hk l r l' [(e & Hml & ->)|(a & l1 & Hml & Hka)]%lint_bind_inv.
  - by apply Hm in Hml.
  - apply Hm in Hml as (rest & ->). apply Hk in Hka as (added & -> & _).
    exists (rest ++ added). by rewrite <- !app_assoc.
Qed.

Lemma lint_invoke_starts {A} c (answer : list Lint.call → Lint.raised + A) :
  ∀ l r l', Lint.invoke c answer l = (r, l') → ∃ rest, l' = l ++ [c] ++ rest.
Proof.
  intros l r l'. unfold Lint.invoke.
  destruct (answer l); intros [= <- <-]; exists []; by rewrite app_nil_r.
Qed.

Lemma lint_with_starts {A B} (enter : Lint.L A) exit (body : A → Lint.L B) cs :
  (∀ l r l', enter l = (r, l') → ∃ rest, l' = l ++ cs ++ rest) →
  (∀ a, Lint.only (fun _ => true) (body a)) →
  ∀ l r l', Lint.with_ enter exit body l = (r, l') →
            ∃ rest, l' = l ++ cs ++ rest.
Proof.
  intros He Hb l r l'. unfold Lint.with_.
  destruct (enter l) as [[e|a] l1] eqn:Hel.
  - intros [= <- <-]. by apply He in Hel.
  - destruct (body a l1) as [r2 l2] eqn:Hbl. intros [= <- <-].
    apply He in Hel as (rest & ->). apply Hb in Hbl as (added & -> & _).
    exists (rest ++ added ++ [exit a]). by rewrite <- !app_assoc.
Qed.

Lemma run_linter_starts W sf :
  ∀ l r l', Lint._run_linter W sf l = (r, l') →
    ∃ rest, l' = l ++ [Lint.TemporaryDirectory
                         (Lint.parent W (Lint.resolve W sf))] ++ rest.
Proof.
  unfold Lint._run_linter. apply lint_bind_starts.
  - unfold Lint._load_snap_metadata. apply lint_with_starts.
    + apply lint_invoke_starts.
    + intros temp_dir. only_steps.
  - intros md. unfold Lint._get_lint_filters, Lint._load_snap_metadata,
      Lint.getitem_name.
    only_steps; repeat case_match; only_steps.
Qed.

Lemma run_in_provider_starts W args :
  ∀ l r l', Lint._run_in_provider W args l = (r, l') →
    ∃ rest,
      l' = l ++ [Lint.debug "Checking build provider availability";
                 Lint.get_provider
                   (if Lint.use_lxd args then Some "lxd" else None)] ++ rest.
Proof.
  unfold Lint._run_in_provider.
  apply (lint_emit_starts _ _ [_]).
  apply lint_bind_starts; [apply lint_invoke_starts|].
  intros provider. only_steps.
Qed.

Lemma lint_run_local_only W args :
  lint_dispatch (Lint.is_managed_mode W) (Lint.SNAPCRAFT_BUILD_ENVIRONMENT W)
  = RunLocal →
  Lint.only (fun c => negb (Lint.provider_call c)) (Lint.run W args).
Proof.
  intros Hd. unfold Lint.run. rewrite Hd.
  apply only_bind; [by apply only_emit|intros _].
  destruct (_ || _); [apply only_raise|].
  apply only_bind; [|intros _; by apply only_emit].
  apply only_bind; [by apply only_emit|intros _].
  apply only_run_linter.
Qed.

Lemma lint_run_provider_only W args :
  lint_dispatch (Lint.is_managed_mode W) (Lint.SNAPCRAFT_BUILD_ENVIRONMENT W)
  = RunInProvisionedEnvironment →
  Lint.only (fun c => negb (Lint.host_call c)) (Lint.run W args).
Proof.
  intros Hd. unfold Lint.run. rewrite Hd.
  apply only_bind; [by apply only_emit|intros _].
  destruct (_ || _); [apply only_raise|].
  apply only_bind; [apply only_run_in_provider|intros _].
  by apply only_emit.
Qed.

(** C8: the decision of the lint command.  For every pair of booleans
    [isInsideManagedEnvironment] (what [is_managed_mode()] answers) and
    [forceHostFlag] (whether [SNAPCRAFT_BUILD_ENVIRONMENT] is [host]),
    [LintCommand.run] on a valid snap file runs locally when one of the
    two is true, and in a provisioned environment exactly when both are
    false.  Running locally shows in the log as the debug line of that
    branch, the first step of [_run_linter], and no call to a provider
    or an instance; running in a provisioned environment as the first
    steps of [_run_in_provider] and no call that touches this machine. *)
Theorem lint_command_dispatch (isInsideManagedEnvironment forceHost : bool)
    W args :
  Lint.is_managed_mode W = isInsideManagedEnvironment →
  forceHostFlag (Lint.SNAPCRAFT_BUILD_ENVIRONMENT W) = forceHost →
  Lint.exists_ W (Lint.snap_file args) = true →
  Lint.is_file W (Lint.snap_file args) = true →
  let decision :=
    if isInsideManagedEnvironment || forceHost
    then RunLocal else RunInProvisionedEnvironment in
  (forceHost = true ↔ Lint.SNAPCRAFT_BUILD_ENVIRONMENT W = Some "host")
  ∧ (decision = RunInProvisionedEnvironment
     ↔ isInsideManagedEnvironment = false ∧ forceHost = false)
  ∧ (∀ E f, path_exists E f = true → path_is_file E f = true →
            lint_run E (Lint.is_managed_mode W)
              (Lint.SNAPCRAFT_BUILD_ENVIRONMENT W) f = inr decision)
  ∧ (∀ r l, Lint.run W args [] = (r, l) →
       match decision with
       | RunLocal =>
           (∃ rest,
              l = [Lint.debug "Running linter.";
                   Lint.debug "Running snapcraft linter inside a managed instance.";
                   Lint.TemporaryDirectory
                     (Lint.parent W (Lint.resolve W (Lint.snap_file args)))]
                  ++ rest)
           ∧ forallb (fun c => negb (Lint.provider_call c)) l = true
       | RunInProvisionedEnvironment =>
           (∃ rest,
              l = [Lint.debug "Running linter.";
                   Lint.debug "Checking build provider availability";
                   Lint.get_provider
                     (if Lint.use_lxd args then Some "lxd" else None)]
                  ++ rest)
           ∧ forallb (fun c => negb (Lint.host_call c)) l = true
       end).
Proof.
  intros Hm Hf Hex Hfile decision.
  assert (lint_dispatch (Lint.is_managed_mode W)
            (Lint.SNAPCRAFT_BUILD_ENVIRONMENT W) = decision) as Hd.
  { subst decision. unfold lint_dispatch. rewrite Hm, Hf.
    by destruct isInsideManagedEnvironment, forceHost. }
  split_and!.
  - rewrite <- Hf. unfold forceHostFlag. apply bool_decide_eq_true.
  - subst decision.
    destruct isInsideManagedEnvironment, forceHost; simpl; intuition congruence.
  - intros E f He Hfl. unfold lint_run. by rewrite He, Hfl, Hd.
  - intros r l Hrun. destruct decision eqn:Hdec.
    + split.
      * revert Hrun. unfold Lint.run. rewrite Hd, Hex, Hfile. simpl.
        intros Hrun.
        apply (lint_emit_starts _ _
                 [Lint.debug "Running snapcraft linter inside a managed instance.";
                  Lint.TemporaryDirectory
                    (Lint.parent W (Lint.resolve W (Lint.snap_file args)))])
          in Hrun as [rest ->]; [by exists rest|].
        clear. intros l r l'.
        intros [(e & Hml & ->)|([] & l1 & Hml & Hka)]%lint_bind_inv.
        -- apply (lint_emit_starts _ _
                    [Lint.TemporaryDirectory
                       (Lint.parent W (Lint.resolve W (Lint.snap_file args)))])
             in Hml; [done|].
           apply run_linter_starts.
        -- apply (lint_emit_starts _ _
                    [Lint.TemporaryDirectory
                       (Lint.parent W (Lint.resolve W (Lint.snap_file args)))])
             in Hml as [rest ->]; [|apply run_linter_starts].
           injection Hka as <- <-. eexists. by rewrite <- !app_assoc.
      * apply (lint_run_local_only W args Hd) in Hrun as (added & -> & Hok).
        done.
    + split.
      * revert Hrun. unfold Lint.run. rewrite Hd, Hex, Hfile. simpl.
        intros Hrun.
        apply (lint_emit_starts _ _
                 [Lint.debug "Checking build provider availability";
                  Lint.get_provider
                    (if Lint.use_lxd args then Some "lxd" else None)])
          in Hrun as [rest ->]; [by exists rest|].
        clear. intros l r l'.
        intros [(e & Hml & ->)|([] & l1 & Hml & Hka)]%lint_bind_inv.
        -- by apply run_in_provider_starts in Hml.
        -- apply run_in_provider_starts in Hml as [rest ->].
           injection Hka as <- <-. eexists. by rewrite <- !app_assoc.
      * apply (lint_run_provider_only W args Hd) in Hrun as (added & -> & Hok).
        done.
Qed.

Lemma lint_command_dispatch_witness :
  let W := Lint.demo false None 0 [] in
  let args := Lint.mkParsedArgs "app.snap" false None None in
  lint_run (demo_env ["app.snap"] None []) false None "app.snap"
  = inr RunInProvisionedEnvironment
  ∧ ∃ rest,
      (Lint.run W args []).2
      = [Lint.debug "Running linter.";
         Lint.debug "Checking build provider availability";
         Lint.get_provider None] ++ rest.
Proof.
  intros W args.
  destruct (lint_command_dispatch false false W args)
    as (_ & _ & Hlint & Hrun); try reflexivity.
  split.
  - apply (Hlint (demo_env ["app.snap"] None []) "app.snap"); reflexivity.
  - by destruct (Hrun _ _ (surjective_pairing _)) as [Hrest _].
Defined.
